(** * creastat/storage: session stores, token estimation, history truncation

    A shallow embedding of the Go sources

      - tokens.go                    [EstimateTokens]
      - the history file             [TruncateHistory], [AddMessageToHistory]
      - session/factory.go           [NewStore], [inMemoryStore], [redisStore]
      - session/drivers              [InMemoryStore], [RedisStore]
      - supabase/client.go           the client's cache
      - vectorstore/qdrant/client.go [buildQdrantFilter], [buildMatchCondition]

    Conventions.

      - Go's [int] and [int64] are 64-bit two's complement; they are
        integers of [Z] and every arithmetic result goes through [wrap64].
      - A Go [string] is a byte sequence; [for _, r := range text] decodes
        it as UTF-8 the way the Go runtime does ([decoderune]).
      - A run-time panic is the outcome [Panic].
      - [time.Now()] is an argument [now] of the operation that reads it.
      - [*SessionData] is an address into a heap of structs, so that the
        sharing between a caller and the in-memory store is visible. *)

From Stdlib Require Import ZArith Lia Sorted.
From stdpp Require Import base option list strings gmap sorting.

Open Scope Z_scope.

(** ** Machine integers *)

Module GoInt.

Definition MaxInt64 : Z := 2 ^ 63 - 1.
Definition MinInt64 : Z := - 2 ^ 63.

(** Two's-complement reduction of an exact result to 64 bits. *)
Definition wrap64 (z : Z) : Z := (z + 2 ^ 63) mod 2 ^ 64 - 2 ^ 63.

Definition inRange (z : Z) : Prop := MinInt64 <= z <= MaxInt64.

(** Go's [/] on integers truncates toward zero. *)
Definition div (a b : Z) : Z := wrap64 (Z.quot a b).

End GoInt.

Import GoInt.

(** ** Strings and the range loop over a string *)

Module Utf8.

(** The bytes of a Go string. *)
Definition bytes (s : string) : list Z :=
  (fun c => Z.of_N (Ascii.N_of_ascii c)) <$> String.list_ascii_of_string s.

Definition runeError : Z := 0xFFFD.

(** A continuation byte, [locb <= b && b <= hicb]. *)
Definition cont (b : Z) : bool := (0x80 <=? b) && (b <=? 0xBF).

(** [decoderune] of the Go runtime at the head [b0 :: rest] of the
    remaining bytes: the rune and the number of bytes it takes.  Overlong
    forms, surrogates and values above [0x10FFFF] give [runeError] and
    advance by one byte. *)
Definition decoderune (b0 : Z) (rest : list Z) : Z * nat :=
  if (0xC0 <=? b0) && (b0 <? 0xE0) then
    match rest with
    | b1 :: _ =>
        let r := Z.lor (Z.shiftl (Z.land b0 0x1F) 6) (Z.land b1 0x3F) in
        if cont b1 && (0x7F <? r) then (r, 2%nat) else (runeError, 1%nat)
    | _ => (runeError, 1%nat)
    end
  else if (0xE0 <=? b0) && (b0 <? 0xF0) then
    match rest with
    | b1 :: b2 :: _ =>
        let r := Z.lor (Z.lor (Z.shiftl (Z.land b0 0x0F) 12)
                              (Z.shiftl (Z.land b1 0x3F) 6))
                       (Z.land b2 0x3F) in
        if cont b1 && cont b2 && (0x7FF <? r)
           && negb ((0xD800 <=? r) && (r <=? 0xDFFF))
        then (r, 3%nat) else (runeError, 1%nat)
    | _ => (runeError, 1%nat)
    end
  else if (0xF0 <=? b0) && (b0 <? 0xF8) then
    match rest with
    | b1 :: b2 :: b3 :: _ =>
        let r := Z.lor (Z.lor (Z.lor (Z.shiftl (Z.land b0 0x07) 18)
                                     (Z.shiftl (Z.land b1 0x3F) 12))
                              (Z.shiftl (Z.land b2 0x3F) 6))
                       (Z.land b3 0x3F) in
        if cont b1 && cont b2 && cont b3 && (0xFFFF <? r) && (r <=? 0x10FFFF)
        then (r, 4%nat) else (runeError, 1%nat)
    | _ => (runeError, 1%nat)
    end
  else (runeError, 1%nat).

(** The runes that [for _, r := range s] yields, in order.  A byte below
    [0x80] is its own rune; anything else goes through [decoderune]. *)
Fixpoint rangeRunes (s : list Z) : list Z :=
  match s with
  | [] => []
  | b0 :: t0 =>
      if b0 <? 0x80 then b0 :: rangeRunes t0
      else
        let '(r, w) := decoderune b0 t0 in
        r :: match w, t0 with
             | 2%nat, _ :: t1 => rangeRunes t1
             | 3%nat, _ :: _ :: t2 => rangeRunes t2
             | 4%nat, _ :: _ :: _ :: t3 => rangeRunes t3
             | _, _ => rangeRunes t0
             end
  end.

(** The string that has the bytes [bs]. *)
Definition ofBytes (bs : list Z) : string :=
  String.string_of_list_ascii ((fun b => Ascii.ascii_of_N (Z.to_N b)) <$> bs).

(** U+FFFD in UTF-8. *)
Definition replacement : list Z := [0xEF; 0xBF; 0xBD].

(** The bytes with every byte that does not begin a well-formed encoding
    replaced by U+FFFD, each such byte on its own.  This is what
    [encoding/json] writes for a string (it decodes with
    [utf8.DecodeRuneInString], which accepts what [decoderune] accepts, and
    writes [\ufffd] where that returns [RuneError] with width 1), and so
    what is read back. *)
Fixpoint coerce (s : list Z) : list Z :=
  match s with
  | [] => []
  | b0 :: t0 =>
      if b0 <? 0x80 then b0 :: coerce t0
      else
        let '(r, w) := decoderune b0 t0 in
        match w, t0 with
        | 2%nat, b1 :: t1 => b0 :: b1 :: coerce t1
        | 3%nat, b1 :: b2 :: t2 => b0 :: b1 :: b2 :: coerce t2
        | 4%nat, b1 :: b2 :: b3 :: t3 => b0 :: b1 :: b2 :: b3 :: coerce t3
        | _, _ => replacement ++ coerce t0
        end
  end.

End Utf8.

(** ** tokens.go *)

(** The weight one character adds in [EstimateTokens]. *)
Definition runeWeight (r : Z) : Z := if r <=? 127 then 1 else 4.

(** The body of [for _, r := range text], from the running [weight]. *)
Fixpoint weighRunes (weight : Z) (rs : list Z) : Z :=
  match rs with
  | [] => weight
  | r :: rs' =>
      if r <=? 127 then weighRunes (wrap64 (weight + 1)) rs'
      else weighRunes (wrap64 (weight + 4)) rs'
  end.

Definition EstimateTokens (text : string) : Z :=
  let weight := weighRunes 0 (Utf8.rangeRunes (Utf8.bytes text)) in
  GoInt.div (wrap64 (weight + 3)) 4.

(** The estimate as section 4.1 of the specification words it: the sum of
    the character weights, plus three, divided by four. *)
Definition weightSum (rs : list Z) : Z := foldr (fun r acc => runeWeight r + acc) 0 rs.

Definition specEstimate (text : string) : Z :=
  (weightSum (Utf8.rangeRunes (Utf8.bytes text)) + 3) / 4.

(** ** Run-time outcomes *)

(** What a call comes to: a run-time panic, or a normal return. *)
Inductive outcome (A : Type) : Type :=
  | Panic : outcome A
  | Done (a : A) : outcome A.
Arguments Panic {A}.
Arguments Done {A} a.

(** ** Messages and history truncation *)

(** A reading of the clock, [time.Time], in nanoseconds. *)
Definition instant := Z.

Record Message := mkMessage {
  Role : string;
  Content : string;
  TokenCount : Z;
  Timestamp : instant
}.

(** [len(s)] as a Go [int]. *)
Definition len {A} (s : list A) : Z := Z.of_nat (length s).

(** The slice expression [s[low:]]: in range when [0 <= low <= len(s)],
    a run-time panic otherwise. *)
Definition sliceFrom {A} (low : Z) (s : list A) : outcome (list A) :=
  if (0 <=? low) && (low <=? len s) then Done (drop (Z.to_nat low) s) else Panic.

(** [for _, msg := range history { totalTokens += msg.TokenCount }] *)
Fixpoint sumTokens (totalTokens : Z) (history : list Message) : Z :=
  match history with
  | [] => totalTokens
  | msg :: rest => sumTokens (wrap64 (totalTokens + TokenCount msg)) rest
  end.

(** [for totalTokens > tokenLimit && len(history) > 0 { ... }] *)
Fixpoint dropOldest (totalTokens tokenLimit : Z) (history : list Message) : list Message :=
  match history with
  | [] => []
  | msg :: rest =>
      if totalTokens >? tokenLimit
      then dropOldest (wrap64 (totalTokens - TokenCount msg)) tokenLimit rest
      else history
  end.

Definition TruncateHistory (history : list Message) (tokenLimit messageLimit : Z)
  : outcome (list Message) :=
  if len history =? 0 then Done history
  else
    let limited :=
      if len history >? messageLimit
      then sliceFrom (wrap64 (len history - messageLimit)) history
      else Done history in
    match limited with
    | Panic => Panic
    | Done history1 => Done (dropOldest (sumTokens 0 history1) tokenLimit history1)
    end.

Definition AddMessageToHistory (now : instant) (history : list Message) (role content : string)
  : list Message :=
  history ++ [mkMessage role content (EstimateTokens content) now].

(** The exact (unbounded) sum of the token counts of a history. *)
Definition totalTokenCount (history : list Message) : Z :=
  foldr (fun msg acc => TokenCount msg + acc) 0 history.

(** The arguments are Go values: a slice length and two [int]s. *)
Definition goArgs (history : list Message) (tokenLimit messageLimit : Z) : Prop :=
  len history <= MaxInt64 /\ inRange tokenLimit /\ inRange messageLimit.

(** ** errors.go and contexts *)

(** A [context.Context] as the stores see it: still live, cancelled, or past
    its deadline. *)
Inductive Context := Live | Canceled | DeadlineExceeded.

Global Instance Context_eq_dec : EqDecision Context.
Proof. solve_decision. Defined.

Inductive error :=
  | ErrInvalidConfig
  | ErrInvalidStoreType
  | ErrVersionConflict
  | ErrNotFound
  | ErrContext (c : Context)      (* context.Canceled, context.DeadlineExceeded *)
  | ErrTransport (msg : string)   (* connection and protocol failures *)
  | ErrMarshal                    (* json.Marshal rejected the value *)
  | ErrUnmarshal                  (* json.Unmarshal rejected the text *)
  | TxFailedErr.                  (* redis: the watched key changed *)

Global Instance error_eq_dec : EqDecision error.
Proof. solve_decision. Defined.

(** [ctx.Err()] *)
Definition ctxErr (ctx : Context) : option error :=
  match ctx with
  | Live => None
  | c => Some (ErrContext c)
  end.

(** ** The session data model *)

(** A value held in a [map[string]any] field.  The stores never look inside;
    what matters to them is what [encoding/json] makes of it: it cannot
    encode a channel, a function, a complex number or a NaN, and a number
    comes back as a [float64].  [AnyNumber z] is a value of one of Go's
    integer types, or a [float64], with the integral value [z]. *)
Inductive any :=
  | AnyNil
  | AnyBool (b : bool)
  | AnyNumber (z : Z)
  | AnyString (s : string)
  | AnyUnencodable.

Record SessionData := mkSessionData {
  ID : string;
  CreatedAt : instant;
  UpdatedAt : instant;
  Version : Z;
  ConversationHistory : list Message;
  SystemPrompt : string;
  Keyterms : list string;
  Language : string;
  TTSEnabled : bool;
  AllowedOrigins : list string;
  RateLimits : gmap string any;
  Config : gmap string any
}.

(** Field assignments [data.F = x]. *)
Definition setCreatedAt (t : instant) (d : SessionData) : SessionData :=
  mkSessionData (ID d) t (UpdatedAt d) (Version d) (ConversationHistory d)
    (SystemPrompt d) (Keyterms d) (Language d) (TTSEnabled d) (AllowedOrigins d)
    (RateLimits d) (Config d).

Definition setUpdatedAt (t : instant) (d : SessionData) : SessionData :=
  mkSessionData (ID d) (CreatedAt d) t (Version d) (ConversationHistory d)
    (SystemPrompt d) (Keyterms d) (Language d) (TTSEnabled d) (AllowedOrigins d)
    (RateLimits d) (Config d).

Definition setVersion (v : Z) (d : SessionData) : SessionData :=
  mkSessionData (ID d) (CreatedAt d) (UpdatedAt d) v (ConversationHistory d)
    (SystemPrompt d) (Keyterms d) (Language d) (TTSEnabled d) (AllowedOrigins d)
    (RateLimits d) (Config d).

Definition setConversationHistory (h : list Message) (d : SessionData) : SessionData :=
  mkSessionData (ID d) (CreatedAt d) (UpdatedAt d) (Version d) h
    (SystemPrompt d) (Keyterms d) (Language d) (TTSEnabled d) (AllowedOrigins d)
    (RateLimits d) (Config d).

(** The three assignments that open both [Create] methods. *)
Definition stampCreate (now : instant) (d : SessionData) : SessionData :=
  setVersion 1 (setUpdatedAt now (setCreatedAt now d)).

(** [data.Version++; data.UpdatedAt = time.Now()] *)
Definition stampUpdate (now : instant) (d : SessionData) : SessionData :=
  setUpdatedAt now (setVersion (wrap64 (Version d + 1)) d).

(** ** What [encoding/json] makes of a session

    [json.Marshal] followed by [json.Unmarshal] does not give back every
    session as it was.  A string comes back with its invalid UTF-8 bytes
    replaced by U+FFFD; a number held in an [any] comes back as the
    nearest [float64]; a map comes back with its keys rewritten like any
    other string, and when two keys become the same string, the one that
    sorts last in the original map wins, because the encoder writes the
    keys in sorted order and the decoder keeps the last duplicate.
    Integers in integer fields, booleans and instants come back as they
    were. *)

Module Json.

Definition str (s : string) : string := Utf8.ofBytes (Utf8.coerce (Utf8.bytes s)).

(** The [float64] nearest to the integer [z], ties to even (for the
    integers that Go's numeric types hold: below [2 ^ 1024] in magnitude). *)
Definition float64 (z : Z) : Z :=
  let a := Z.abs z in
  if a <? 2 ^ 53 then z
  else
    let e := Z.log2 a - 52 in
    let q := a / 2 ^ e in
    let r := a mod 2 ^ e in
    let half := 2 ^ (e - 1) in
    let q1 := if (half <? r) || ((r =? half) && Z.odd q) then q + 1 else q in
    Z.sgn z * (q1 * 2 ^ e).

Definition value (v : any) : any :=
  match v with
  | AnyNumber z => AnyNumber (float64 z)
  | AnyString s => AnyString (str s)
  | _ => v
  end.

(** The order in which the encoder writes the keys of a map. *)
Definition keyLe (a b : string * any) : Prop := String.leb a.1 b.1 = true.

Global Instance keyLe_dec : RelDecision keyLe.
Proof. intros a b. unfold keyLe. apply _. Defined.

Definition object (m : gmap string any) : gmap string any :=
  foldl (fun acc kv => <[str kv.1 := value kv.2]> acc) ∅
        (merge_sort keyLe (map_to_list m)).

Definition message (m : Message) : Message :=
  mkMessage (str (Role m)) (str (Content m)) (TokenCount m) (Timestamp m).

Definition session (d : SessionData) : SessionData :=
  mkSessionData (str (ID d)) (CreatedAt d) (UpdatedAt d) (Version d)
    (message <$> ConversationHistory d)
    (str (SystemPrompt d)) (str <$> Keyterms d) (str (Language d)) (TTSEnabled d)
    (str <$> AllowedOrigins d)
    (object (RateLimits d)) (object (Config d)).

End Json.

(** A string is valid UTF-8 exactly when encoding it leaves it as it is:
    every replacement makes the string longer. *)
Definition validUTF8 (s : string) : Prop := Json.str s = s.

(** ** The in-memory store

    [inMemoryStore] of session/factory.go and [InMemoryStore] of the drivers
    package have the same fields and, statement for statement, the same
    methods; one model serves both.  The mutex makes every method one
    atomic step, which is how a method is a function of the state here. *)

Module InMemory.

(** Addresses of [SessionData] structs. *)
Definition loc := positive.

(** The program state a method sees: the structs behind the pointers, and
    the store's [sessions] map.  [None] is the nil map that [Close]
    leaves behind. *)
Record world := mkWorld {
  heap : loc -> SessionData;
  sessions : option (gmap string loc)
}.

(** [NewInMemoryStore], and the memory case of [NewStore]. *)
Definition NewInMemoryStore (h : loc -> SessionData) : world :=
  mkWorld h (Some ∅).

(** [*p = d] *)
Definition store (p : loc) (d : SessionData) (h : loc -> SessionData) : loc -> SessionData :=
  fun q => if decide (q = p) then d else h q.

(** [s.sessions[id]], which on a nil map reads as absent. *)
Definition lookupSession (id : string) (w : world) : option loc :=
  match sessions w with
  | Some m => m !! id
  | None => None
  end.

Definition Create (ctx : Context) (now : instant) (data : loc) (w : world)
  : outcome (option error * world) :=
  let d := stampCreate now (heap w data) in
  match sessions w with
  | None => Panic                (* assignment to entry in nil map *)
  | Some m =>
      Done (None, mkWorld (store data d (heap w)) (Some (<[ID d := data]> m)))
  end.

Definition Get (ctx : Context) (id : string) (w : world)
  : outcome (option loc * option error) :=
  match lookupSession id w with
  | None => Done (None, None)
  | Some data => Done (Some data, None)
  end.

Definition Update (ctx : Context) (now : instant) (data : loc) (w : world)
  : outcome (option error * world) :=
  match lookupSession (ID (heap w data)) w with
  | None => Done (Some ErrNotFound, w)
  | Some stored =>
      if negb (Version (heap w stored) =? Version (heap w data))
      then Done (Some ErrVersionConflict, w)
      else
        let d := stampUpdate now (heap w data) in
        match sessions w with
        | None => Panic
        | Some m =>
            Done (None, mkWorld (store data d (heap w)) (Some (<[ID d := data]> m)))
        end
  end.

Definition Delete (ctx : Context) (id : string) (w : world)
  : outcome (option error * world) :=
  match sessions w with
  | None => Done (None, w)       (* delete on a nil map is a no-op *)
  | Some m => Done (None, mkWorld (heap w) (Some (delete id m)))
  end.

Definition Close (w : world) : outcome (option error * world) :=
  Done (None, mkWorld (heap w) None).

(** The [Version] the store holds for [id], if it holds a record. *)
Definition storedVersion (id : string) (w : world) : option Z :=
  (fun p => Version (heap w p)) <$> lookupSession id w.

(** The record the store holds for [id]. *)
Definition storedRecord (id : string) (w : world) : option SessionData :=
  heap w <$> lookupSession id w.

End InMemory.

(** ** The Redis-backed store

    [redisStore] of session/factory.go and [RedisStore] of the drivers
    package run the same commands in the same order; one model serves both.

    The cache server, the go-redis client and [encoding/json] are not part
    of the repository.  They are modelled as far as the stores use them:

      - the cache is a finite map from keys to a value with a time to live,
        if the key has one;
      - a value is represented by what [json.Unmarshal] makes of it: the
        session it decodes to, or text that does not decode;
      - the client sends a time to live in whole milliseconds or whole
        seconds, as go-redis does ([formatMs], [formatSec]);
      - every client command is a round trip that takes the caller's
        context: with a context that is already done it fails with the
        context's error and nothing is sent, otherwise it fails when the
        network does ([Net]) and has no effect then;
      - between the read and the commit of a [Watch] transaction another
        client may change the watched key ([touched]); the commit then
        fails with [TxFailedErr] and writes nothing;
      - the time to live of a key is recorded, the clock of the server is
        not modelled: no key expires while the calls under study run. *)

Module Redis.

Inductive blob :=
  | Encoded (d : SessionData)
  | Garbage (text : string).

Record entry := mkEntry {
  value : blob;
  expiry : option Z   (* the time to live in nanoseconds; [None]: no expiry *)
}.

(** [time.Millisecond], [time.Second] and go-redis's [KeepTTL], as
    [time.Duration]s. *)
Definition Millisecond : Z := 1000000.
Definition Second : Z := 1000000000.
Definition KeepTTL : Z := -1.

(** go-redis: a duration goes out in milliseconds when it is not a whole
    number of seconds. *)
Definition usePrecise (dur : Z) : bool :=
  (dur <? Second) || negb (Z.rem dur Second =? 0).

Definition formatMs (dur : Z) : Z :=
  if (0 <? dur) && (dur <? Millisecond) then 1 else Z.quot dur Millisecond.

Definition formatSec (dur : Z) : Z :=
  if (0 <? dur) && (dur <? Second) then 1 else Z.quot dur Second.

(** The time to live a SET leaves on its key: go-redis adds [PX] or [EX]
    for a positive expiration and [KEEPTTL] for [KeepTTL]; without any of
    them the server stores the key without expiry.  [old] is the key's
    entry before the command. *)
Definition setExpiry (expiration : Z) (old : option entry) : option Z :=
  if 0 <? expiration then
    if usePrecise expiration then Some (formatMs expiration * Millisecond)
    else Some (formatSec expiration * Second)
  else if expiration =? KeepTTL then old ≫= expiry
  else None.

(** What the network and the other clients do during one method call. *)
Record Net := mkNet {
  watchFault : option string;   (* the message of the connection failure *)
  getFault : option string;
  setFault : option string;
  expireFault : option string;
  delFault : option string;
  execFault : option string;
  touched : option (option entry)
    (* [Some None]: deleted by another client; [Some (Some e)]: set to [e] *)
}.

(** A network without faults and without other clients. *)
Definition quiet : Net := mkNet None None None None None None None.

(** One round trip under [ctx]. *)
Definition roundTrip (ctx : Context) (fault : option string) : option error :=
  match ctxErr ctx with
  | Some e => Some e
  | None => ErrTransport <$> fault
  end.

(** The result of a GET: [redis.Nil], a value, or a failure. *)
Inductive reply :=
  | Nil
  | Val (b : blob)
  | Fail (e : error).

Definition cmdGet (ctx : Context) (fault : option string) (key : string)
    (db : gmap string entry) : reply :=
  match roundTrip ctx fault with
  | Some e => Fail e
  | None => match db !! key with
            | Some e => Val (value e)
            | None => Nil
            end
  end.

Definition cmdSet (ctx : Context) (fault : option string) (key : string) (val : blob)
    (ttl : Z) (db : gmap string entry) : gmap string entry * option error :=
  match roundTrip ctx fault with
  | Some e => (db, Some e)
  | None => (<[key := mkEntry val (setExpiry ttl (db !! key))]> db, None)
  end.

(** EXPIRE takes whole seconds; with a timeout that is not positive the
    server deletes the key. *)
Definition cmdExpire (ctx : Context) (fault : option string) (key : string)
    (ttl : Z) (db : gmap string entry) : gmap string entry * option error :=
  match roundTrip ctx fault with
  | Some e => (db, Some e)
  | None =>
      let seconds := formatSec ttl in
      if seconds <=? 0 then (delete key db, None)
      else (alter (fun e => mkEntry (value e) (Some (seconds * Second))) key db, None)
  end.

Definition cmdDel (ctx : Context) (fault : option string) (key : string)
    (db : gmap string entry) : gmap string entry * option error :=
  match roundTrip ctx fault with
  | Some e => (db, Some e)
  | None => (delete key db, None)
  end.

(** What another client did to [key]. *)
Definition applyChange (key : string) (change : option entry)
    (db : gmap string entry) : gmap string entry :=
  match change with
  | Some e => <[key := e]> db
  | None => delete key db
  end.

(** [tx.TxPipelined] with the single queued [pipe.Set]: MULTI, SET, EXEC
    on the watched [key]. *)
Definition TxPipelined (ctx : Context) (net : Net) (key : string) (newVal : blob)
    (ttl : Z) (db : gmap string entry) : gmap string entry * option error :=
  match roundTrip ctx (execFault net) with
  | Some e => (db, Some e)
  | None =>
      match touched net with
      | Some change => (applyChange key change db, Some TxFailedErr)
      | None => (<[key := mkEntry newVal (setExpiry ttl (db !! key))]> db, None)
      end
  end.

Definition anyEncodable (v : any) : bool :=
  match v with AnyUnencodable => false | _ => true end.

Definition mapEncodable (m : gmap string any) : bool :=
  forallb (fun kv => anyEncodable kv.2) (map_to_list m).

(** Whether [encoding/json] has an encoding for the session: the two
    open maps are the only fields that can hold a value it rejects. *)
Definition encodable (d : SessionData) : bool :=
  mapEncodable (RateLimits d) && mapEncodable (Config d).

(** [marshalJSON] / [json.Marshal] of a session: text that decodes to
    [Json.session d]. *)
Definition marshalJSON (d : SessionData) : option blob :=
  if encodable d then Some (Encoded (Json.session d)) else None.

(** [unmarshalJSON] / [json.Unmarshal] into a [SessionData]. *)
Definition unmarshalJSON (b : blob) : option SessionData :=
  match b with
  | Encoded d => Some d
  | Garbage _ => None
  end.

Definition sessionKeyPrefix : string := "session:".
Definition defaultTTL : Z := 24 * 3600 * 1000000000.

Record RedisStore := mkRedisStore { ttl : Z }.

(** [NewRedisStore], and the redis case of [NewStore]. *)
Definition NewRedisStore (t : Z) : RedisStore :=
  mkRedisStore (if t <=? 0 then defaultTTL else t).

Definition key (id : string) : string := sessionKeyPrefix +:+ id.

(** The methods return the caller's struct as the call leaves it, the
    cache as the call leaves it, and the error. *)

Definition Create (ctx : Context) (net : Net) (now : instant) (s : RedisStore)
    (data : SessionData) (db : gmap string entry)
  : SessionData * gmap string entry * option error :=
  let k := key (ID data) in
  let data1 := stampCreate now data in
  match marshalJSON data1 with
  | None => (data1, db, Some ErrMarshal)
  | Some val =>
      let '(db1, err) := cmdSet ctx (setFault net) k val (ttl s) db in
      (data1, db1, err)
  end.

Definition Get (ctx : Context) (net : Net) (s : RedisStore) (id : string)
    (db : gmap string entry)
  : option SessionData * gmap string entry * option error :=
  let k := key id in
  match cmdGet ctx (getFault net) k db with
  | Nil => (None, db, None)
  | Fail e => (None, db, Some e)
  | Val val =>
      match unmarshalJSON val with
      | None => (None, db, Some ErrUnmarshal)
      | Some data =>
          (* the error of the refresh is dropped *)
          let '(db1, _) := cmdExpire ctx (expireFault net) k (ttl s) db in
          (Some data, db1, None)
      end
  end.

Definition Update (ctx : Context) (net : Net) (now : instant) (s : RedisStore)
    (data : SessionData) (db : gmap string entry)
  : SessionData * gmap string entry * option error :=
  let k := key (ID data) in
  (* client.Watch: WATCH k, then the function on the transaction *)
  match roundTrip ctx (watchFault net) with
  | Some e => (data, db, Some e)
  | None =>
      match cmdGet ctx (getFault net) k db with
      | Nil => (data, db, Some ErrNotFound)
      | Fail e => (data, db, Some e)
      | Val val =>
          match unmarshalJSON val with
          | None => (data, db, Some ErrUnmarshal)
          | Some stored =>
              if negb (Version stored =? Version data)
              then (data, db, Some ErrVersionConflict)
              else
                let data1 := stampUpdate now data in
                match marshalJSON data1 with
                | None => (data1, db, Some ErrMarshal)
                | Some newVal =>
                    let '(db1, err) := TxPipelined ctx net k newVal (ttl s) db in
                    (data1, db1, err)
                end
          end
      end
  end.

Definition Delete (ctx : Context) (net : Net) (s : RedisStore) (id : string)
    (db : gmap string entry) : gmap string entry * option error :=
  cmdDel ctx (delFault net) (key id) db.

(** The session the cache holds for [id], when it holds one that decodes. *)
Definition storedRecord (id : string) (db : gmap string entry) : option SessionData :=
  match db !! key id with
  | Some e => unmarshalJSON (value e)
  | None => None
  end.

Definition storedVersion (id : string) (db : gmap string entry) : option Z :=
  Version <$> storedRecord id db.

End Redis.

(** ** Callers

    Sequences of store calls, as a caller issues them one after another. *)

Module Caller.

Import InMemory.

(** One call on the in-memory store. *)
Inductive call :=
  | CallCreate (ctx : Context) (now : instant) (data : loc)
  | CallUpdate (ctx : Context) (now : instant) (data : loc)
  | CallDelete (ctx : Context) (id : string).

Definition exec (c : call) (w : world) : outcome (option error * world) :=
  match c with
  | CallCreate ctx now data => Create ctx now data w
  | CallUpdate ctx now data => Update ctx now data w
  | CallDelete ctx id => Delete ctx id w
  end.





(** One read-modify-write round on the in-memory store: [Get] the
    session, replace its history through the pointer [Get] returned,
    [Update] with that pointer.  [None] when the round did not go
    through. *)
Definition memRound (id : string) (turn : instant * list Message) (w : world)
  : option world :=
  match Get Live id w with
  | Done (Some p, None) =>
      let edited := setConversationHistory turn.2 (heap w p) in
      match Update Live turn.1 p (mkWorld (store p edited (heap w)) (sessions w)) with
      | Done (None, w1) => Some w1
      | _ => None
      end
  | _ => None
  end.

Fixpoint memRounds (id : string) (turns : list (instant * list Message)) (w : world)
  : option world :=
  match turns with
  | [] => Some w
  | t :: rest =>
      match memRound id t w with
      | Some w1 => memRounds id rest w1
      | None => None
      end
  end.

(** One round against the Redis-backed store, under the network [net]
    and the context [ctx] of that round. *)
Record turn := mkTurn {
  turnCtx : Context;
  turnNet : Redis.Net;
  turnNow : instant;
  turnHistory : list Message
}.

Definition redisRound (s : Redis.RedisStore) (id : string) (t : turn)
    (db : gmap string Redis.entry) : option (gmap string Redis.entry) :=
  match Redis.Get (turnCtx t) (turnNet t) s id db with
  | (Some d, db1, None) =>
      match Redis.Update (turnCtx t) (turnNet t) (turnNow t) s
              (setConversationHistory (turnHistory t) d) db1 with
      | (_, db2, None) => Some db2
      | _ => None
      end
  | _ => None
  end.

Fixpoint redisRounds (s : Redis.RedisStore) (id : string) (turns : list turn)
    (db : gmap string Redis.entry) : option (gmap string Redis.entry) :=
  match turns with
  | [] => Some db
  | t :: rest =>
      match redisRound s id t db with
      | Some db1 => redisRounds s id rest db1
      | None => None
      end
  end.

(** *** The life of a record

    What a sequence of calls does to the record of one ID, seen as the
    events that matter for its [Version]: a successful [Create] or
    [Update] for the ID, with the [Version] it persisted (and, for an
    [Update], the one it found), and every call after which the store has
    no record for the ID.  The two stores share the bookkeeping: [step]
    runs one call ([None] is a panic, the flag says that the call
    returned no error), [version] reads the stored [Version] of the ID,
    [about] says that a call is a [Create] or [Update] for the ID, and
    [creates] that it is a [Create]. *)


Section Events.

Context {state call : Type}.
Variable step : call -> state -> option (bool * state).
Variable version : state -> option Z.
Variable about : call -> state -> bool.
Variable creates : call -> bool.



End Events.





















End Caller.

(** ** The store factory

    [NewStore] and the functional options of the session package.  A
    [*redis.Client] is nil or a connected client, known by its address. *)

Module Factory.

Record storeConfig := mkStoreConfig {
  redisClient : option positive;
  redisTTL : Z
}.

Definition StoreOption := storeConfig -> storeConfig.

Definition WithRedisClient (client : option positive) : StoreOption :=
  fun c => mkStoreConfig client (redisTTL c).

Definition WithRedisTTL (ttl : Z) : StoreOption :=
  fun c => mkStoreConfig (redisClient c) ttl.

Definition StoreTypeMemory : string := "memory".
Definition StoreTypeRedis : string := "redis".

(** The two implementations of the [Store] interface that [NewStore]
    hands out. *)
Inductive Store :=
  | inMemoryStore (sessions : option (gmap string InMemory.loc))
  | redisStore (client : positive) (store : Redis.RedisStore).

Definition NewStore (storeType : string) (opts : list StoreOption)
  : option Store * option error :=
  let config := foldl (fun c opt => opt c) (mkStoreConfig None 0) opts in
  if decide (storeType = StoreTypeMemory) then
    (Some (inMemoryStore (Some ∅)), None)
  else if decide (storeType = StoreTypeRedis) then
    match redisClient config with
    | None => (None, Some ErrInvalidConfig)
    | Some client =>
        let ttl := redisTTL config in
        let ttl := if ttl <=? 0 then 24 * 3600 * 1000000000 else ttl in
        (Some (redisStore client (Redis.mkRedisStore ttl)), None)
    end
  else (None, Some ErrInvalidStoreType).

End Factory.

(** ** The Supabase client and its cache (supabase/client.go)

    The client reads tenants, assistants, sources and documents from a
    database through a third-party client and keeps what it read in two
    maps with an expiry.  The database is outside the repository: the
    answer to a query is an argument of the method that sends it, as is
    every reading of the clock.  The cache never looks inside the
    entities it holds, except for the [ID] of an assistant and of a
    source, so the entity types are left open. *)

Module Supabase.

Class Entities := {
  Assistant : Type;
  Tenant : Type;
  Source : Type;
  Document : Type;
  assistantID : Assistant -> string;   (* the ID field *)
  sourceID : Source -> string          (* the ID field *)
}.

Section Client.

Context `{Entities}.

(** A value of the [byID] map: a pointer of one of the four kinds held in
    an [any]. *)
Inductive anyEntity :=
  | AnAssistant (a : Assistant)
  | ATenant (t : Tenant)
  | ASource (s : Source)
  | ADocument (d : Document).

Record cacheEntry (T : Type) := mkCacheEntry {
  value : T;
  expiresAt : instant
}.
Arguments mkCacheEntry {T} value expiresAt.
Arguments value {T} c.
Arguments expiresAt {T} c.

Record cache := mkCache {
  byToken : gmap string (cacheEntry Assistant);
  byID : gmap string (cacheEntry anyEntity)
}.

Record Config := mkConfig {
  URL : string;
  APIKey : string;
  CacheTTL : Z
}.

Record Client := mkClient {
  clientCache : cache;
  cacheTTL : Z
}.

Inductive failure :=
  | URLRequired                              (* supabase URL is required *)
  | APIKeyRequired                           (* supabase API key is required *)
  | ClientFailed (cause : string)            (* failed to create supabase client *)
  | QueryFailed (what cause : string)        (* failed to get ...: cause *)
  | AssistantNotFound.                       (* assistant not found *)

(** [New]; [connect] is what [supabase.NewClient] answers. *)
Definition New (cfg : Config) (connect : option string) : option Client * option failure :=
  if decide (URL cfg = "") then (None, Some URLRequired)
  else if decide (APIKey cfg = "") then (None, Some APIKeyRequired)
  else
    let ttl := if CacheTTL cfg =? 0 then 5 * 60 * 1000000000 else CacheTTL cfg in
    match connect with
    | Some cause => (None, Some (ClientFailed cause))
    | None => (Some (mkClient (mkCache ∅ ∅) ttl), None)
    end.

(** [time.Now().Before(e.expiresAt)] *)
Definition fresh {T} (now : instant) (e : cacheEntry T) : bool := now <? expiresAt e.

Definition getFromCacheByToken (now : instant) (key : string) (c : Client)
  : option Assistant :=
  match byToken (clientCache c) !! key with
  | Some e => if fresh now e then Some (value e) else None
  | None => None
  end.

Definition getFromCacheByID (now : instant) (key : string) (c : Client)
  : option anyEntity :=
  match byID (clientCache c) !! key with
  | Some e => if fresh now e then Some (value e) else None
  | None => None
  end.

Definition addToCache (now : instant) (keyType key : string) (v : anyEntity)
    (c : Client) : Client :=
  let expires := now + cacheTTL c in
  if decide (keyType = "token") then
    match v with
    | AnAssistant a =>
        mkClient (mkCache (<[key := mkCacheEntry a expires]> (byToken (clientCache c)))
                          (byID (clientCache c)))
                 (cacheTTL c)
    | _ => c
    end
  else if decide (keyType = "id") then
    mkClient (mkCache (byToken (clientCache c))
                      (<[key := mkCacheEntry v expires]> (byID (clientCache c))))
             (cacheTTL c)
  else c.

(** The methods take the time [now] of the cache lookup, the times of the
    insertions that follow a query, and the answer [reply] of the
    database: the rows, or the cause of a failure. *)

Definition GetAssistantByToken (now now1 now2 : instant)
    (reply : list Assistant + string) (publicToken : string) (c : Client)
  : option Assistant * option failure * Client :=
  match getFromCacheByToken now publicToken c with
  | Some cached => (Some cached, None, c)
  | None =>
      match reply with
      | inr cause => (None, Some (QueryFailed "assistant by token" cause), c)
      | inl [] => (None, Some AssistantNotFound, c)
      | inl (assistant :: _) =>
          let c1 := addToCache now1 "token" publicToken (AnAssistant assistant) c in
          let c2 := addToCache now2 "id" (assistantID assistant) (AnAssistant assistant) c1 in
          (Some assistant, None, c2)
      end
  end.

Definition GetTenant (now now1 : instant) (reply : Tenant + string)
    (tenantID : string) (c : Client) : option Tenant * option failure * Client :=
  match getFromCacheByID now tenantID c with
  | Some (ATenant cached) => (Some cached, None, c)
  | _ =>
      match reply with
      | inr cause => (None, Some (QueryFailed "tenant" cause), c)
      | inl tenant => (Some tenant, None, addToCache now1 "id" tenantID (ATenant tenant) c)
      end
  end.

Definition GetSource (now now1 : instant) (reply : Source + string)
    (id : string) (c : Client) : option Source * option failure * Client :=
  match getFromCacheByID now id c with
  | Some (ASource cached) => (Some cached, None, c)
  | _ =>
      match reply with
      | inr cause => (None, Some (QueryFailed "source" cause), c)
      | inl source => (Some source, None, addToCache now1 "id" id (ASource source) c)
      end
  end.

Definition GetDocument (now now1 : instant) (reply : Document + string)
    (documentID : string) (c : Client) : option Document * option failure * Client :=
  match getFromCacheByID now documentID c with
  | Some (ADocument cached) => (Some cached, None, c)
  | _ =>
      match reply with
      | inr cause => (None, Some (QueryFailed "document" cause), c)
      | inl document =>
          (Some document, None, addToCache now1 "id" documentID (ADocument document) c)
      end
  end.

(** [for i := range sources { c.addToCache("id", sources[i].ID, &sources[i]) }];
    [times i] is the clock at the i-th insertion. *)
Fixpoint cacheSources (times : nat -> instant) (i : nat) (sources : list Source)
    (c : Client) : Client :=
  match sources with
  | [] => c
  | s :: rest =>
      cacheSources times (S i) rest (addToCache (times i) "id" (sourceID s) (ASource s) c)
  end.

Definition GetSourcesByAssistantID (times : nat -> instant)
    (reply : list Source + string) (assistantID : string) (c : Client)
  : option (list Source) * option failure * Client :=
  match reply with
  | inr cause => (None, Some (QueryFailed "sources by assistant_id" cause), c)
  | inl sources => (Some sources, None, cacheSources times 0 sources c)
  end.

Definition GetDocumentsByIDs (reply : list Document + string)
    (documentIDs : list string) (c : Client)
  : option (list Document) * option failure * Client :=
  if len documentIDs =? 0 then (Some [], None, c)
  else
    match reply with
    | inr cause => (None, Some (QueryFailed "documents" cause), c)
    | inl documents => (Some documents, None, c)
    end.

(** The cache of [c1] has every key the cache of [c] has, and the same
    time to live. *)
Definition grows (c c1 : Client) : Prop :=
  cacheTTL c1 = cacheTTL c
  /\ dom (byID (clientCache c)) ⊆ dom (byID (clientCache c1))
  /\ dom (byToken (clientCache c)) ⊆ dom (byToken (clientCache c1)).

End Client.

End Supabase.

(** ** The Qdrant filter builder *)

Module Qdrant.

(** A metadata value by its dynamic type, as the type switch of
    [buildMatchCondition] tells the types apart; for a value of any other
    type, what [fmt.Sprintf("%v", v)] prints. *)
Inductive metaValue :=
  | VString (v : string)
  | VInt (v : Z)
  | VInt64 (v : Z)
  | VBool (v : bool)
  | VOther (printed : string).

(** [qdrant.Match] with the alternatives of its [MatchValue] that the
    builder uses. *)
Inductive Match :=
  | Match_Keyword (Keyword : string)
  | Match_Integer (Integer : Z)
  | Match_Boolean (Boolean : bool)
  | Match_Keywords (Keywords : list string).

Record FieldCondition := mkFieldCondition {
  Key : string;
  FieldMatch : Match
}.

Inductive Condition :=
  | Condition_Field (Field : FieldCondition).

Record Filter := mkFilter {
  Must : list Condition
}.

(** [vectorstore.SearchFilter]; [SourceIDs] is the [[]string] field that
    [buildQdrantFilter] reads.  The type of [MinScore] is left open. *)
Record SearchFilter (float32 : Type) := mkSearchFilter {
  SourceID : string;
  SourceIDs : list string;
  Metadata : gmap string metaValue;
  MinScore : float32
}.
Arguments mkSearchFilter {float32} SourceID SourceIDs Metadata MinScore.
Arguments SourceID {float32} s.
Arguments SourceIDs {float32} s.
Arguments Metadata {float32} s.
Arguments MinScore {float32} s.

(** The struct as the earlier revision of the package has it. *)
Record SearchFilterV0 (float32 : Type) := mkSearchFilterV0 {
  SourceIDV0 : string;
  MetadataV0 : gmap string metaValue;
  MinScoreV0 : float32
}.
Arguments mkSearchFilterV0 {float32} SourceIDV0 MetadataV0 MinScoreV0.
Arguments SourceIDV0 {float32} s.
Arguments MetadataV0 {float32} s.
Arguments MinScoreV0 {float32} s.

(** A [range] over a map visits every entry once, in an order that the
    language leaves open: [visited] is one such order. *)
Definition ranges (m : gmap string metaValue) (visited : list (string * metaValue))
  : Prop :=
  visited ≡ₚ map_to_list m.

Definition buildMatchCondition (key : string) (value : metaValue) : Condition :=
  let match_ :=
    match value with
    | VString v => Match_Keyword v
    | VInt v => Match_Integer v
    | VInt64 v => Match_Integer v
    | VBool v => Match_Boolean v
    | VOther printed => Match_Keyword printed
    end in
  Condition_Field (mkFieldCondition key match_).

(** [for key, value := range filter.Metadata { conditions = append(...) }] *)
Definition rangeMetadata (visited : list (string * metaValue))
    (conditions : list Condition) : list Condition :=
  foldl (fun conditions kv => conditions ++ [buildMatchCondition kv.1 kv.2])
        conditions visited.

(** [buildQdrantFilter]; [visited] is the order in which the loop goes
    through [filter.Metadata]. *)
Definition buildQdrantFilter {float32} (visited : list (string * metaValue))
    (filter : SearchFilter float32) : option Filter :=
  let conditions := [] in
  let conditions :=
    match SourceIDs filter with
    | [] =>                                       (* len(filter.SourceIDs) == 0 *)
        if decide (SourceID filter <> "") then
          conditions ++ [Condition_Field
                           (mkFieldCondition "source_id"
                              (Match_Keyword (SourceID filter)))]
        else conditions
    | [id0] =>                                    (* len(filter.SourceIDs) == 1 *)
        conditions ++ [Condition_Field
                         (mkFieldCondition "source_id" (Match_Keyword id0))]
    | _ =>
        let keywords := SourceIDs filter in       (* make and copy *)
        conditions ++ [Condition_Field
                         (mkFieldCondition "source_id" (Match_Keywords keywords))]
    end in
  let conditions := rangeMetadata visited conditions in
  if len conditions =? 0 then None else Some (mkFilter conditions).

(** [buildFilter] of the earlier revision. *)
Definition buildFilter {float32} (visited : list (string * metaValue))
    (filter : SearchFilterV0 float32) : option Filter :=
  let conditions := [] in
  let conditions :=
    if decide (SourceIDV0 filter <> "") then
      conditions ++ [Condition_Field
                       (mkFieldCondition "source_id"
                          (Match_Keyword (SourceIDV0 filter)))]
    else conditions in
  let conditions := rangeMetadata visited conditions in
  if len conditions =? 0 then None else Some (mkFilter conditions).

End Qdrant.

(** ** Sample values

    A session as a caller fills it in before [Create], and a heap holding
    two such sessions: one for ["s1"] at address 1 and at address 3, one
    for ["s2"] everywhere else. *)

Definition sampleSession (id : string) (version : Z) : SessionData :=
  mkSessionData id 0 0 version [] "You are helpful." [] "en" false []
    ∅ (<["tier" := AnyString "free"]> ∅).

Definition sampleHeap : InMemory.loc -> SessionData :=
  fun p =>
    if decide (p = 1%positive) then sampleSession "s1" 0
    else if decide (p = 3%positive) then sampleSession "s1" 7
    else sampleSession "s2" 0.

(** Entities for examples: each is just its ID. *)
Definition sampleEntities : Supabase.Entities :=
  Supabase.Build_Entities string string string string (fun a => a) (fun s => s).


(** * Properties *)

(** ** Machine integers *)

Section GoIntFacts.

Lemma wrap64_id z : inRange z -> wrap64 z = z.
Proof.
  unfold inRange, MinInt64, MaxInt64, wrap64. intros Hz.
  rewrite Z.mod_small; lia.
Qed.

Lemma wrap64_range z : inRange (wrap64 z).
Proof.
  unfold inRange, MinInt64, MaxInt64, wrap64.
  pose proof (Z.mod_pos_bound (z + 2 ^ 63) (2 ^ 64)). lia.
Qed.

(** Reducing an operand first does not change a reduced sum. *)
Lemma wrap64_add_l a b : wrap64 (wrap64 a + b) = wrap64 (a + b).
Proof.
  unfold wrap64.
  replace ((a + 2 ^ 63) mod 2 ^ 64 - 2 ^ 63 + b + 2 ^ 63)
    with ((a + 2 ^ 63) mod 2 ^ 64 + b) by lia.
  rewrite Zplus_mod_idemp_l. f_equal. f_equal. lia.
Qed.

Lemma wrap64_sub_l a b : wrap64 (wrap64 a - b) = wrap64 (a - b).
Proof. unfold Z.sub. apply wrap64_add_l. Qed.

(** An increment never gives back the value it started from. *)
Lemma wrap64_succ_ne v : wrap64 (v + 1) <> v.
Proof.
  unfold wrap64. intros H.
  pose proof (Z.div_mod (v + 1 + 2 ^ 63) (2 ^ 64)) as Hd.
  set (q := (v + 1 + 2 ^ 63) / 2 ^ 64) in Hd.
  assert (2 ^ 64 * q = 1) by lia. lia.
Qed.

Lemma wrap64_succ v : inRange v -> v < MaxInt64 -> wrap64 (v + 1) = v + 1.
Proof.
  unfold inRange, MinInt64, MaxInt64. intros ? ?.
  apply wrap64_id. unfold inRange, MinInt64, MaxInt64. lia.
Qed.

End GoIntFacts.

(** ** Token estimation *)

Section Tokens.

Lemma rangeRunes_length s : (length (Utf8.rangeRunes s) <= length s)%nat.
Proof.
  induction s as [s IH] using (induction_ltof1 _ (@length Z)).
  unfold ltof in IH.
  destruct s as [|b0 t0]; [done|]. cbn [Utf8.rangeRunes].
  destruct (b0 <? 0x80).
  - cbn [length]. specialize (IH t0). cbn [length] in IH. lia.
  - destruct (Utf8.decoderune b0 t0) as [r w]. cbn [length].
    assert (H0 := IH t0). cbn [length] in H0.
    destruct t0 as [|b1 t1]; [destruct w as [|[|[|[|[|w]]]]]; lia|].
    assert (H1 := IH t1). cbn [length] in H0, H1 |- *.
    destruct t1 as [|b2 t2]; [destruct w as [|[|[|[|[|w]]]]]; lia|].
    assert (H2 := IH t2). cbn [length] in H0, H1, H2 |- *.
    destruct t2 as [|b3 t3]; [destruct w as [|[|[|[|[|w]]]]]; lia|].
    assert (H3 := IH t3). cbn [length] in H0, H1, H2, H3 |- *.
    destruct w as [|[|[|[|[|w]]]]]; lia.
Qed.

Lemma bytes_length text : length (Utf8.bytes text) = String.length text.
Proof.
  unfold Utf8.bytes. rewrite length_fmap.
  induction text as [|c text IH]; cbn; [done | by rewrite IH].
Qed.

Lemma weightSum_bounds rs : 0 <= weightSum rs <= 4 * len rs.
Proof.
  unfold len. induction rs as [|r rs IH]; cbn [weightSum foldr length]; [lia|].
  fold (weightSum rs). unfold runeWeight. destruct (r <=? 127); lia.
Qed.

(** Below the overflow bound the loop computes the exact sum. *)
Lemma weighRunes_exact rs weight :
  0 <= weight -> weight + 4 * len rs <= MaxInt64 ->
  weighRunes weight rs = weight + weightSum rs.
Proof.
  unfold len, MaxInt64. revert weight.
  induction rs as [|r rs IH]; intros weight Hw Hb; cbn [weighRunes weightSum foldr].
  - lia.
  - fold (weightSum rs). cbn [length] in Hb. unfold runeWeight.
    destruct (r <=? 127).
    + rewrite wrap64_id by (unfold inRange, MinInt64, MaxInt64; lia).
      rewrite IH; lia.
    + rewrite wrap64_id by (unfold inRange, MinInt64, MaxInt64; lia).
      rewrite IH; lia.
Qed.

Lemma EstimateTokens_spec text :
  4 * Z.of_nat (String.length text) + 3 <= MaxInt64 ->
  EstimateTokens text = specEstimate text.
Proof.
  intros Hlen. unfold EstimateTokens, specEstimate.
  set (rs := Utf8.rangeRunes (Utf8.bytes text)).
  assert (Hrs : len rs <= Z.of_nat (String.length text)).
  { unfold len, rs. rewrite <- bytes_length.
    pose proof (rangeRunes_length (Utf8.bytes text)). lia. }
  pose proof (weightSum_bounds rs) as Hs.
  rewrite weighRunes_exact, Z.add_0_l by lia.
  unfold MaxInt64 in Hlen.
  rewrite wrap64_id by (unfold inRange, MinInt64, MaxInt64; lia).
  unfold GoInt.div. rewrite Z.quot_div_nonneg by lia.
  apply wrap64_id. unfold inRange, MinInt64, MaxInt64.
  assert (0 <= (weightSum rs + 3) / 4) by (apply Z.div_pos; lia).
  assert ((weightSum rs + 3) / 4 <= weightSum rs + 3)
    by (apply Z.div_le_upper_bound; lia).
  lia.
Qed.

End Tokens.

(** C7.  For every text (short enough that the weight fits Go's [int]),
    [EstimateTokens] returns the non-negative integer [(sum+3)/4], which
    is [sum/4] rounded up, where [sum] adds 1 for each character of code
    point at most 127 and 4 for any other; the estimate of "test" is 1,
    of the three-character CJK text 3, and of the empty string 0. *)
Theorem C7_EstimateTokens_weighted_ceiling (text : string) :
  4 * Z.of_nat (String.length text) + 3 <= MaxInt64 ->
  let sum := weightSum (Utf8.rangeRunes (Utf8.bytes text)) in
  EstimateTokens text = (sum + 3) / 4
  /\ 0 <= EstimateTokens text
  /\ 4 * (EstimateTokens text - 1) < sum <= 4 * EstimateTokens text
  /\ EstimateTokens "test" = 1
  /\ EstimateTokens "日本語" = 3
  /\ EstimateTokens "" = 0.
Proof.
  intros Hlen sum.
  pose proof (EstimateTokens_spec text Hlen) as Heq.
  unfold specEstimate in Heq. fold sum in Heq.
  pose proof (weightSum_bounds (Utf8.rangeRunes (Utf8.bytes text))) as Hs.
  fold sum in Hs.
  assert (Hd : sum + 3 = 4 * ((sum + 3) / 4) + (sum + 3) mod 4)
    by (apply Z.div_mod; lia).
  pose proof (Z.mod_pos_bound (sum + 3) 4).
  rewrite Heq. repeat split; try lia; vm_compute; reflexivity.
Qed.

Lemma C7_EstimateTokens_witness :
  EstimateTokens "naïve" = (weightSum (Utf8.rangeRunes (Utf8.bytes "naïve")) + 3) / 4
  /\ EstimateTokens "naïve" = 2.
Proof.
  split.
  - apply (C7_EstimateTokens_weighted_ceiling "naïve"). vm_compute. discriminate.
  - vm_compute. reflexivity.
Defined.

(** ** History truncation *)

(** Closes [goArgs] on concrete arguments. *)
Ltac go_args :=
  unfold goArgs, inRange, MinInt64, MaxInt64, len; cbn [length]; lia.

Section Truncation.

Lemma sumTokens_wrap history t :
  sumTokens (wrap64 t) history = wrap64 (t + totalTokenCount history).
Proof.
  revert t. induction history as [|msg rest IH]; intros t;
    cbn [sumTokens totalTokenCount foldr].
  - f_equal. lia.
  - fold (totalTokenCount rest). rewrite wrap64_add_l, IH. f_equal. lia.
Qed.

Lemma sumTokens_0 history : sumTokens 0 history = wrap64 (totalTokenCount history).
Proof. change 0 with (wrap64 0) at 1. by rewrite sumTokens_wrap. Qed.

Lemma totalTokenCount_nonneg history :
  Forall (fun msg => 0 <= TokenCount msg) history -> 0 <= totalTokenCount history.
Proof.
  induction 1 as [|msg rest Hm _ IH]; cbn [totalTokenCount foldr]; [lia|].
  fold (totalTokenCount rest). lia.
Qed.

Lemma totalTokenCount_drop k history :
  Forall (fun msg => 0 <= TokenCount msg) history ->
  totalTokenCount (drop k history) <= totalTokenCount history.
Proof.
  revert k. induction history as [|msg rest IH]; intros k Hall.
  - by rewrite drop_nil.
  - destruct k as [|k]; [done|].
    change (totalTokenCount (drop k rest) <= TokenCount msg + totalTokenCount rest).
    apply Forall_cons in Hall as [Hm Hrest]. specialize (IH k Hrest). lia.
Qed.

(** The loop only ever cuts a prefix off. *)
Lemma dropOldest_suffix history totalTokens tokenLimit :
  exists k, dropOldest totalTokens tokenLimit history = drop k history.
Proof.
  revert totalTokens.
  induction history as [|msg rest IH]; intros totalTokens; cbn [dropOldest].
  - by exists 0%nat.
  - destruct (totalTokens >? tokenLimit).
    + destruct (IH (wrap64 (totalTokens - TokenCount msg))) as [k Hk].
      exists (S k). by rewrite Hk.
    + by exists 0%nat.
Qed.

Lemma dropOldest_within history totalTokens tokenLimit :
  totalTokens <= tokenLimit ->
  dropOldest totalTokens tokenLimit history = history.
Proof.
  intros Hle. destruct history as [|msg rest]; cbn [dropOldest]; [done|].
  destruct (Z.gtb_spec totalTokens tokenLimit); [lia | done].
Qed.

(** What the loop returns is a fixed point of the loop. *)
Lemma dropOldest_stable history tokenLimit :
  let r := dropOldest (sumTokens 0 history) tokenLimit history in
  dropOldest (sumTokens 0 r) tokenLimit r = r.
Proof.
  induction history as [|msg rest IH]; cbn zeta; [done|].
  cbn [dropOldest].
  destruct (Z.gtb_spec (sumTokens 0 (msg :: rest)) tokenLimit) as [Hgt|Hle].
  - replace (wrap64 (sumTokens 0 (msg :: rest) - TokenCount msg))
      with (sumTokens 0 rest); [exact IH|].
    rewrite !sumTokens_0, wrap64_sub_l. cbn [totalTokenCount foldr].
    f_equal. fold (totalTokenCount rest). lia.
  - by apply dropOldest_within.
Qed.

Lemma dropOldest_length history totalTokens tokenLimit :
  (length (dropOldest totalTokens tokenLimit history) <= length history)%nat.
Proof.
  destruct (dropOldest_suffix history totalTokens tokenLimit) as [k ->].
  rewrite length_drop. lia.
Qed.

(** With token budget 0, histories of positive counts are drained. *)
Lemma dropOldest_drains history :
  Forall (fun msg => 0 < TokenCount msg) history ->
  totalTokenCount history <= MaxInt64 ->
  dropOldest (totalTokenCount history) 0 history = [].
Proof.
  induction 1 as [|msg rest Hm Hrest IH]; intros Hmax; [done|].
  cbn [totalTokenCount foldr dropOldest] in *. fold (totalTokenCount rest) in *.
  assert (0 <= totalTokenCount rest).
  { apply totalTokenCount_nonneg. eapply Forall_impl; [exact Hrest|].
    cbn. intros. lia. }
  destruct (Z.gtb_spec (TokenCount msg + totalTokenCount rest) 0); [|lia].
  replace (wrap64 (TokenCount msg + totalTokenCount rest - TokenCount msg))
    with (totalTokenCount rest); [apply IH; lia|].
  symmetry. unfold MaxInt64 in Hmax.
  rewrite wrap64_id by (unfold inRange, MinInt64, MaxInt64; lia). lia.
Qed.

(** The loop empties a history exactly when every run of most recent
    messages has a total above the budget. *)
Lemma dropOldest_empty history tokenLimit :
  dropOldest (sumTokens 0 history) tokenLimit history = []
  <-> forall k, (k < length history)%nat -> tokenLimit < sumTokens 0 (drop k history).
Proof.
  induction history as [|msg rest IH].
  - split; [|done]. intros _ k Hk. cbn in Hk. lia.
  - cbn [dropOldest].
    destruct (Z.gtb_spec (sumTokens 0 (msg :: rest)) tokenLimit) as [Hgt|Hle].
    + replace (wrap64 (sumTokens 0 (msg :: rest) - TokenCount msg))
        with (sumTokens 0 rest).
      2:{ rewrite !sumTokens_0, wrap64_sub_l. cbn [totalTokenCount foldr].
          f_equal. fold (totalTokenCount rest). lia. }
      rewrite IH. split.
      * intros Hrest [|k] Hk; [rewrite drop_0; lia|].
        cbn [drop]. apply Hrest. cbn [length] in Hk. lia.
      * intros Hall k Hk. apply (Hall (S k)). cbn [length]. lia.
    + split; [done|]. intros Hall.
      specialize (Hall 0%nat). rewrite drop_0 in Hall. cbn [length] in Hall. lia.
Qed.

Lemma totalTokenCount_app front back :
  totalTokenCount (front ++ back) = totalTokenCount front + totalTokenCount back.
Proof.
  unfold totalTokenCount.
  induction front as [|msg front IH]; cbn [app foldr]; [done|].
  rewrite IH. lia.
Qed.

(** For counts that are not negative and add up inside an [int], every
    run of most recent messages has a positive total exactly when the
    last message has a positive count. *)
Lemma suffix_totals_positive history :
  Forall (fun msg => 0 <= TokenCount msg) history ->
  totalTokenCount history <= MaxInt64 ->
  (forall k, (k < length history)%nat -> 0 < sumTokens 0 (drop k history))
  <-> history = [] \/ exists msg, last history = Some msg /\ 0 < TokenCount msg.
Proof.
  intros Hnn Hmax.
  assert (Hexact : forall k, sumTokens 0 (drop k history)
                             = totalTokenCount (drop k history)).
  { intros k. rewrite sumTokens_0. apply wrap64_id.
    pose proof (totalTokenCount_drop k history Hnn).
    pose proof (totalTokenCount_nonneg (drop k history) (Forall_drop _ _ _ Hnn)).
    unfold inRange, MinInt64, MaxInt64 in *. lia. }
  destruct (last history) as [final|] eqn:Hlast.
  - apply last_Some in Hlast as [front ->]. split.
    + intros Hall. right. exists final. split; [done|].
      specialize (Hall (length front)).
      rewrite Hexact, drop_app_length in Hall. cbn in Hall.
      rewrite length_app in Hall. cbn [length] in Hall. lia.
    + intros [Hnil | (msg & [= <-] & Hpos)]; [by destruct front|].
      intros k Hk. rewrite Hexact.
      rewrite length_app in Hk. cbn [length] in Hk.
      rewrite drop_app_le by lia. rewrite totalTokenCount_app.
      assert (0 <= totalTokenCount (drop k front)).
      { apply totalTokenCount_nonneg, Forall_drop.
        by apply Forall_app in Hnn as [? _]. }
      cbn. lia.
  - apply last_None in Hlast as ->. split; [by left|].
    intros _ k Hk. cbn in Hk. lia.
Qed.

(** The function in closed form, on Go values. *)
Lemma TruncateHistory_eq history tokenLimit messageLimit :
  goArgs history tokenLimit messageLimit ->
  TruncateHistory history tokenLimit messageLimit =
    match history with
    | [] => Done []
    | _ =>
        if messageLimit <? 0 then Panic
        else
          let history1 := drop (length history - Z.to_nat messageLimit) history in
          Done (dropOldest (sumTokens 0 history1) tokenLimit history1)
    end.
Proof.
  intros (Hlen & _ & Hm). unfold TruncateHistory.
  destruct history as [|msg rest]; [done|].
  set (history := msg :: rest) in *.
  assert (Hpos : 0 < len history) by (unfold len, history; cbn [length]; lia).
  destruct (Z.eqb_spec (len history) 0); [lia|].
  unfold inRange, MinInt64, MaxInt64 in *. unfold sliceFrom.
  destruct (Z.gtb_spec (len history) messageLimit) as [Hgt|Hle].
  - destruct (Z.ltb_spec messageLimit 0) as [Hneg|Hnn].
    + (* the low bound is past the end, or wraps to a negative number *)
      destruct (Z.le_gt_cases (len history - messageLimit) (2 ^ 63 - 1)).
      * rewrite wrap64_id by (unfold inRange, MinInt64, MaxInt64; lia).
        destruct (Z.leb_spec 0 (len history - messageLimit));
          destruct (Z.leb_spec (len history - messageLimit) (len history));
          cbn; done || lia.
      * assert (Hw : wrap64 (len history - messageLimit)
                     = len history - messageLimit - 2 ^ 64).
        { unfold wrap64.
          replace (len history - messageLimit + 2 ^ 63)
            with ((len history - messageLimit - 2 ^ 63) + 1 * 2 ^ 64) by lia.
          rewrite Z.mod_add by lia. rewrite Z.mod_small; lia. }
        rewrite Hw.
        destruct (Z.leb_spec 0 (len history - messageLimit - 2 ^ 64));
          cbn; done || lia.
    + rewrite wrap64_id by (unfold inRange, MinInt64, MaxInt64; lia).
      destruct (Z.leb_spec 0 (len history - messageLimit)); [|lia].
      destruct (Z.leb_spec (len history - messageLimit) (len history)); [|lia].
      cbn [andb]. cbn zeta.
      replace (Z.to_nat (len history - messageLimit))
        with (length history - Z.to_nat messageLimit)%nat by (unfold len; lia).
      done.
  - destruct (Z.ltb_spec messageLimit 0); [lia|]. cbn zeta.
    replace (length history - Z.to_nat messageLimit)%nat with 0%nat
      by (unfold len in *; lia).
    done.
Qed.

End Truncation.

(** C6.  The claim is that [TruncateHistory] returns for every limit.  The
    code does not: on a non-empty history a negative [messageLimit] makes
    the slice expression [history[len(history)-messageLimit:]] start past
    the end of the slice (or at a negative index, after overflow), which
    panics.  A limit of zero and any [tokenLimit] are tolerated. *)
Theorem C6_negative_messageLimit_panics
    (history : list Message) (tokenLimit messageLimit : Z) :
  goArgs history tokenLimit messageLimit ->
  history <> [] ->
  messageLimit < 0 ->
  TruncateHistory history tokenLimit messageLimit = Panic.
Proof.
  intros Hgo Hne Hneg. rewrite TruncateHistory_eq by done.
  destruct history; [done|].
  by destruct (Z.ltb_spec messageLimit 0); [|lia].
Qed.

Lemma C6_negative_messageLimit_witness :
  TruncateHistory [mkMessage "user" "hi" 1 0] 10 (-1) = Panic.
Proof.
  apply C6_negative_messageLimit_panics.
  - go_args.
  - discriminate.
  - lia.
Defined.

(** Everywhere else the function returns: a non-negative [messageLimit]
    never fails, whatever the [tokenLimit]. *)
Lemma TruncateHistory_returns history tokenLimit messageLimit :
  goArgs history tokenLimit messageLimit ->
  0 <= messageLimit ->
  exists r, TruncateHistory history tokenLimit messageLimit = Done r.
Proof.
  intros Hgo Hnn. rewrite TruncateHistory_eq by done.
  destruct history; [by eexists|].
  destruct (Z.ltb_spec messageLimit 0); [lia | by eexists].
Qed.

(** C8 as stated fails for the token budget: the loop runs while the
    running total is greater than the budget, so messages whose counts add
    up to 0 survive a token budget of 0.  Such messages exist: the token
    estimate of an empty content is 0. *)
Lemma C8_zero_token_budget_counterexample :
  let history := AddMessageToHistory 0 [] "user" "" in
  history <> [] /\ TruncateHistory history 0 1 = Done history.
Proof. split; [discriminate | vm_compute; reflexivity]. Qed.

(** C8, amended.  The empty history is returned as it is, and a
    message-count budget of 0 drains every history to empty.  With a token
    budget of 0 and a message-count budget that is not negative, the
    history is drained to empty exactly when, among the last
    [messageLimit] messages, every run of most recent messages has a
    positive token total as Go's [int] adds it up.  For token counts that
    are not negative and add up inside an [int] that is: exactly when the
    history is empty, the message-count budget is 0, or the last message
    has a positive token count. *)
Theorem C8_zero_budget_drains
    (history : list Message) (tokenLimit messageLimit : Z) :
  goArgs history tokenLimit messageLimit ->
  (history = [] -> TruncateHistory history tokenLimit messageLimit = Done [])
  /\ (messageLimit = 0 -> TruncateHistory history tokenLimit messageLimit = Done [])
  /\ (tokenLimit = 0 -> 0 <= messageLimit ->
      let window := drop (length history - Z.to_nat messageLimit) history in
      (TruncateHistory history tokenLimit messageLimit = Done []
       <-> forall k, (k < length window)%nat -> 0 < sumTokens 0 (drop k window))
      /\ (Forall (fun msg => 0 <= TokenCount msg) history ->
          totalTokenCount history <= MaxInt64 ->
          (TruncateHistory history tokenLimit messageLimit = Done []
           <-> history = [] \/ messageLimit = 0
               \/ exists msg, last history = Some msg /\ 0 < TokenCount msg))).
Proof.
  intros Hgo. rewrite TruncateHistory_eq by done.
  split; [by intros ->|]. split.
  { intros ->. destruct history as [|msg rest]; [done|].
    cbn [Z.ltb Z.compare Z.to_nat]. cbn zeta.
    by rewrite Nat.sub_0_r, drop_all. }
  intros -> Hnn. cbn zeta.
  set (k0 := (length history - Z.to_nat messageLimit)%nat).
  assert (Hgen : match history with
                 | [] => Done []
                 | _ :: _ =>
                     if messageLimit <? 0 then Panic
                     else Done (dropOldest (sumTokens 0 (drop k0 history)) 0
                                  (drop k0 history))
                 end = Done []
                 <-> forall k, (k < length (drop k0 history))%nat ->
                               0 < sumTokens 0 (drop k (drop k0 history))).
  { destruct history as [|msg rest].
    - split; [|done]. intros _ k Hk. rewrite drop_nil in Hk. cbn in Hk. lia.
    - destruct (Z.ltb_spec messageLimit 0); [lia|].
      rewrite <- dropOldest_empty. split; [by intros [= ->] | by intros ->]. }
  split; [exact Hgen|].
  intros Hcounts Hmax. rewrite Hgen.
  assert (Hcounts0 : Forall (fun msg => 0 <= TokenCount msg) (drop k0 history))
    by (by apply Forall_drop).
  assert (Hmax0 : totalTokenCount (drop k0 history) <= MaxInt64).
  { pose proof (totalTokenCount_drop k0 history Hcounts). lia. }
  rewrite (suffix_totals_positive (drop k0 history) Hcounts0 Hmax0).
  assert (Hlen : length (drop k0 history)
                 = Nat.min (length history) (Z.to_nat messageLimit)).
  { rewrite length_drop. unfold k0. lia. }
  split.
  - intros [Hnil | (msg & Hlast & Hpos)].
    + apply (f_equal length) in Hnil. rewrite Hlen in Hnil. cbn in Hnil.
      destruct history as [|m rest]; [by left|]. right. left.
      cbn [length] in Hnil. lia.
    + right. right. exists msg. split; [|done].
      rewrite last_lookup in Hlast. rewrite lookup_drop in Hlast.
      rewrite last_lookup. rewrite <- Hlast. f_equal.
      assert (length (drop k0 history) <> 0)%nat.
      { intros H0. rewrite H0 in Hlast. cbn in Hlast.
        rewrite lookup_ge_None_2 in Hlast; [done|]. rewrite length_drop in H0. lia. }
      rewrite length_drop in *. lia.
  - intros [-> | [-> | (msg & Hlast & Hpos)]].
    + left. by rewrite drop_nil.
    + left. unfold k0. cbn [Z.to_nat]. by rewrite Nat.sub_0_r, drop_all.
    + destruct (decide (drop k0 history = [])) as [|Hne]; [by left|].
      right. exists msg. split; [|done].
      rewrite last_lookup, lookup_drop. rewrite last_lookup in Hlast.
      rewrite <- Hlast. f_equal.
      assert (length (drop k0 history) <> 0)%nat
        by (by destruct (drop k0 history)).
      rewrite length_drop in *. lia.
Qed.

Lemma C8_zero_budget_witness :
  TruncateHistory [mkMessage "user" "hello" 2 0; mkMessage "assistant" "hi" 1 1] 0 5
  = Done [].
Proof.
  set (history := [mkMessage "user" "hello" 2 0; mkMessage "assistant" "hi" 1 1]).
  assert (Hgo : goArgs history 0 5) by (unfold history; go_args).
  destruct (C8_zero_budget_drains history 0 5 Hgo) as (_ & _ & Hzero).
  destruct (Hzero eq_refl) as [_ Hlast]; [lia|].
  apply Hlast.
  - repeat constructor; cbn; lia.
  - unfold history, MaxInt64. cbn. lia.
  - right. right. exists (mkMessage "assistant" "hi" 1 1). split; [reflexivity|]. cbn. lia.
Defined.

(** C9.  A history within both budgets comes back unchanged, where the
    sum of the token counts is the sum as Go's [int] arithmetic gives it,
    which for counts that are not negative is the exact sum; whatever
    [TruncateHistory] returns is the input with a prefix cut off, so the
    survivors are the most recent messages in their original order; and
    truncating the result again changes nothing. *)
Theorem C9_within_budget_unchanged_front_only
    (history : list Message) (tokenLimit messageLimit : Z) :
  goArgs history tokenLimit messageLimit ->
  (len history <= messageLimit ->
   sumTokens 0 history <= tokenLimit
   \/ (Forall (fun msg => 0 <= TokenCount msg) history
       /\ totalTokenCount history <= tokenLimit) ->
   TruncateHistory history tokenLimit messageLimit = Done history)
  /\ (forall r, TruncateHistory history tokenLimit messageLimit = Done r ->
        (exists k, r = drop k history)
        /\ TruncateHistory r tokenLimit messageLimit = Done r).
Proof.
  intros Hgo. pose proof Hgo as (Hlen & Ht & Hm).
  split.
  - intros Hcount Hsum.
    assert (Htok : sumTokens 0 history <= tokenLimit).
    { destruct Hsum as [Hgo_sum | [Hnn Hexact]]; [done|].
      pose proof (totalTokenCount_nonneg history Hnn).
      unfold inRange, MinInt64, MaxInt64 in Ht.
      rewrite sumTokens_0, wrap64_id by (unfold inRange, MinInt64, MaxInt64; lia).
      done. }
    rewrite TruncateHistory_eq by done.
    destruct history as [|msg rest]; [done|].
    set (history := msg :: rest) in *.
    assert (0 < len history) by (unfold len, history; cbn [length]; lia).
    destruct (Z.ltb_spec messageLimit 0); [lia|]. cbn zeta.
    replace (length history - Z.to_nat messageLimit)%nat with 0%nat
      by (unfold len in *; lia).
    rewrite drop_0. by rewrite dropOldest_within.
  - intros r Hr. rewrite TruncateHistory_eq in Hr by done.
    destruct history as [|msg rest].
    { injection Hr as <-. split; [by exists 0%nat | done]. }
    set (history := msg :: rest) in *.
    destruct (Z.ltb_spec messageLimit 0) as [|Hnn]; [done|].
    injection Hr as Hr.
    pose (k := (length history - Z.to_nat messageLimit)%nat).
    change (dropOldest (sumTokens 0 (drop k history)) tokenLimit (drop k history) = r)
      in Hr.
    split.
    + destruct (dropOldest_suffix (drop k history)
                  (sumTokens 0 (drop k history)) tokenLimit) as [j Hj].
      exists (k + j)%nat. by rewrite <- Hr, Hj, drop_drop.
    + assert (Hshort : (length r <= length (drop k history))%nat)
        by (rewrite <- Hr; apply dropOldest_length).
      rewrite length_drop in Hshort.
      assert (Hgo' : goArgs r tokenLimit messageLimit).
      { unfold goArgs, len in *. split; [lia | tauto]. }
      assert (Hstable : dropOldest (sumTokens 0 r) tokenLimit r = r).
      { rewrite <- Hr. apply dropOldest_stable. }
      rewrite TruncateHistory_eq by done.
      destruct r as [|msg' rest']; [done|].
      set (r := msg' :: rest') in *.
      destruct (Z.ltb_spec messageLimit 0); [lia|]. cbn zeta.
      replace (length r - Z.to_nat messageLimit)%nat with 0%nat
        by (unfold k in Hshort; lia).
      by rewrite drop_0, Hstable.
Qed.

Lemma C9_within_budget_witness :
  let history := [mkMessage "user" "hello" 2 0; mkMessage "assistant" "hi" 1 1] in
  TruncateHistory history 3 2 = Done history
  /\ (exists k, drop 1 history = drop k history)
  /\ TruncateHistory (drop 1 history) 1 2 = Done (drop 1 history).
Proof.
  intros history.
  assert (Hgo3 : goArgs history 3 2) by (unfold history; go_args).
  assert (Hgo1 : goArgs history 1 2) by (unfold history; go_args).
  destruct (C9_within_budget_unchanged_front_only history 3 2 Hgo3) as [Hsame _].
  destruct (C9_within_budget_unchanged_front_only history 1 2 Hgo1) as [_ Hfront].
  split.
  - apply Hsame.
    + unfold history, len. cbn [length]. lia.
    + right. split.
      * repeat constructor; cbn; lia.
      * unfold history. cbn. lia.
  - apply Hfront. vm_compute. reflexivity.
Defined.

(** ** The in-memory store *)

Section InMemoryFacts.

Import InMemory.

Lemma store_same p d h : store p d h p = d.
Proof. unfold store. by rewrite decide_True. Qed.

Lemma store_other p q d h : q <> p -> store p d h q = h q.
Proof. intros. unfold store. by rewrite decide_False. Qed.

Lemma lookupSession_written id p h m :
  lookupSession id (mkWorld h (Some (<[id := p]> m))) = Some p.
Proof. unfold lookupSession. cbn [sessions]. apply lookup_insert_eq. Qed.

Lemma storedRecord_written id p d h m :
  storedRecord id (mkWorld (store p d h) (Some (<[id := p]> m))) = Some d.
Proof.
  unfold storedRecord. rewrite lookupSession_written.
  cbn [fmap option_fmap option_map heap]. by rewrite store_same.
Qed.

Lemma storedVersion_written id p d h m :
  storedVersion id (mkWorld (store p d h) (Some (<[id := p]> m))) = Some (Version d).
Proof.
  unfold storedVersion. rewrite lookupSession_written.
  cbn [fmap option_fmap option_map heap]. by rewrite store_same.
Qed.

Lemma Update_NotFound ctx now data w :
  lookupSession (ID (heap w data)) w = None ->
  Update ctx now data w = Done (Some ErrNotFound, w).
Proof. intros H. unfold Update. by rewrite H. Qed.

Lemma Update_VersionConflict ctx now data w stored :
  lookupSession (ID (heap w data)) w = Some stored ->
  Version (heap w stored) <> Version (heap w data) ->
  Update ctx now data w = Done (Some ErrVersionConflict, w).
Proof.
  intros H Hne. unfold Update. rewrite H.
  by destruct (Z.eqb_spec (Version (heap w stored)) (Version (heap w data))).
Qed.

Lemma Update_match ctx now data w stored :
  lookupSession (ID (heap w data)) w = Some stored ->
  Version (heap w stored) = Version (heap w data) ->
  exists m, sessions w = Some m /\
    Update ctx now data w =
      Done (None, mkWorld (store data (stampUpdate now (heap w data)) (heap w))
                          (Some (<[ID (heap w data) := data]> m))).
Proof.
  intros H Heq. unfold Update. rewrite H, Heq, Z.eqb_refl. cbn [negb].
  unfold lookupSession in H. destruct (sessions w) as [m|]; [|done].
  by exists m.
Qed.

(** A failing [Update] is one of the two optimistic-lock failures and
    leaves the whole state, heap and map, as it was. *)
Lemma Update_failure ctx now data w e w1 :
  Update ctx now data w = Done (Some e, w1) ->
  (e = ErrNotFound \/ e = ErrVersionConflict) /\ w1 = w.
Proof.
  unfold Update. intros H.
  destruct (lookupSession (ID (heap w data)) w) as [stored|].
  - destruct (negb (Version (heap w stored) =? Version (heap w data))).
    + injection H as <- <-. auto.
    + destruct (sessions w); discriminate.
  - injection H as <- <-. auto.
Qed.

Lemma Create_open ctx now data w m :
  sessions w = Some m ->
  Create ctx now data w =
    Done (None, mkWorld (store data (stampCreate now (heap w data)) (heap w))
                        (Some (<[ID (heap w data) := data]> m))).
Proof. intros H. unfold Create. by rewrite H. Qed.

(** One read-modify-write round goes through and moves the version on. *)
Lemma memRound_bumps id turn w p :
  lookupSession id w = Some p ->
  ID (heap w p) = id ->
  exists w1,
    Caller.memRound id turn w = Some w1
    /\ lookupSession id w1 = Some p
    /\ ID (heap w1 p) = id
    /\ Version (heap w1 p) = wrap64 (Version (heap w p) + 1).
Proof.
  intros Hp Hid. unfold Caller.memRound, Get. rewrite Hp.
  set (w' := mkWorld _ _).
  assert (Hhp : heap w' p = setConversationHistory turn.2 (heap w p))
    by (unfold w'; cbn [heap]; apply store_same).
  assert (Hlk : lookupSession (ID (heap w' p)) w' = Some p).
  { rewrite Hhp. cbn [setConversationHistory ID]. by rewrite Hid. }
  destruct (Update_match Live turn.1 p w' p Hlk eq_refl) as (m & Hm & ->).
  eexists. split; [reflexivity|].
  unfold lookupSession. cbn [sessions heap].
  rewrite Hhp. cbn [setConversationHistory ID]. rewrite Hid, lookup_insert_eq.
  rewrite store_same. by cbn.
Qed.

Lemma memRounds_version id turns w p x :
  lookupSession id w = Some p ->
  ID (heap w p) = id ->
  Version (heap w p) = wrap64 x ->
  exists w1,
    Caller.memRounds id turns w = Some w1
    /\ storedVersion id w1 = Some (wrap64 (x + len turns)).
Proof.
  revert w x. induction turns as [|t rest IH]; intros w x Hp Hid Hv.
  - exists w. split; [done|]. unfold storedVersion. rewrite Hp. cbn.
    rewrite Hv. do 2 f_equal. unfold len. cbn. lia.
  - destruct (memRound_bumps id t w p Hp Hid) as (w1 & Hr & Hp1 & Hid1 & Hv1).
    cbn [Caller.memRounds]. rewrite Hr.
    rewrite Hv, wrap64_add_l in Hv1.
    destruct (IH w1 (x + 1) Hp1 Hid1 Hv1) as (w2 & Hrs & Hsv).
    exists w2. split; [done|]. rewrite Hsv. do 2 f_equal.
    unfold len. cbn [length]. lia.
Qed.

(** A closed store has a nil map: reads find nothing, [Update] reports
    [ErrNotFound], and [Create] panics on the map assignment.  The
    statements about [Create] below are therefore about an open store. *)
Lemma closed_store ctx now data id w w1 :
  Close w = Done (None, w1) ->
  Get ctx id w1 = Done (None, None)
  /\ Update ctx now data w1 = Done (Some ErrNotFound, w1)
  /\ Create ctx now data w1 = Panic.
Proof. intros [= <-]. by repeat split. Qed.

End InMemoryFacts.

(** ** What [encoding/json] makes of a session *)

Section JsonFacts.

Lemma ofBytes_bytes s : Utf8.ofBytes (Utf8.bytes s) = s.
Proof.
  unfold Utf8.ofBytes, Utf8.bytes. rewrite <- list_fmap_compose.
  rewrite <- (String.string_of_list_ascii_of_string s) at 2. f_equal.
  induction (String.list_ascii_of_string s) as [|c l IH]; [done|].
  cbn [fmap list_fmap compose]. f_equal; [|exact IH].
  rewrite N2Z.id. apply Ascii.ascii_N_embedding.
Qed.

Lemma coerce_ascii bs : Forall (fun b => b < 0x80) bs -> Utf8.coerce bs = bs.
Proof.
  induction 1 as [|b bs Hb _ IH]; [done|]. cbn [Utf8.coerce].
  destruct (Z.ltb_spec b 0x80); [|lia]. by rewrite IH.
Qed.

(** Text made of ASCII bytes is valid UTF-8. *)
Lemma validUTF8_ascii s : Forall (fun b => b < 0x80) (Utf8.bytes s) -> validUTF8 s.
Proof.
  intros Hascii. unfold validUTF8, Json.str.
  by rewrite coerce_ascii, ofBytes_bytes.
Qed.

(** The fields that the stores read come back as they were, the [ID] as
    [encoding/json] writes it. *)
Lemma session_Version d : Version (Json.session d) = Version d.
Proof. done. Qed.

Lemma session_ID d : ID (Json.session d) = Json.str (ID d).
Proof. done. Qed.

Lemma session_stampUpdate now d :
  Json.session (stampUpdate now d) = stampUpdate now (Json.session d).
Proof. done. Qed.

Lemma session_stampCreate now d :
  Json.session (stampCreate now d) = stampCreate now (Json.session d).
Proof. done. Qed.

(** Every value of the map read back is the reading of a value of the
    map written. *)
Lemma object_values m k v :
  Json.object m !! k = Some v -> exists k0 v0, m !! k0 = Some v0 /\ v = Json.value v0.
Proof.
  unfold Json.object.
  assert (Hin : forall kv, kv ∈ merge_sort Json.keyLe (map_to_list m) -> m !! kv.1 = Some kv.2).
  { intros [k0 v0] Hkv. rewrite merge_sort_Permutation in Hkv.
    by apply elem_of_map_to_list in Hkv. }
  revert Hin.
  generalize (merge_sort Json.keyLe (map_to_list m)). intros l.
  assert (Hgen : forall acc : gmap string any,
            (forall k v, acc !! k = Some v ->
                         exists k0 v0, m !! k0 = Some v0 /\ v = Json.value v0) ->
            (forall kv, kv ∈ l -> m !! kv.1 = Some kv.2) ->
            foldl (fun acc kv => <[Json.str kv.1 := Json.value kv.2]> acc) acc l !! k
            = Some v ->
            exists k0 v0, m !! k0 = Some v0 /\ v = Json.value v0).
  { induction l as [|kv l IH]; intros acc Hacc Hl; cbn [foldl].
    - apply Hacc.
    - apply IH.
      + intros k' v' Hk'. destruct (decide (Json.str kv.1 = k')) as [<-|Hne].
        * rewrite lookup_insert_eq in Hk'. injection Hk' as <-.
          exists kv.1, kv.2. split; [|done]. apply Hl. by left.
        * rewrite lookup_insert_ne in Hk' by done. by apply (Hacc k').
      + intros kv' Hkv'. apply Hl. by right. }
  intros Hin. apply Hgen; [|done]. intros k' v' Hk'. by rewrite lookup_empty in Hk'.
Qed.

Lemma value_encodable v :
  Redis.anyEncodable (Json.value v) = Redis.anyEncodable v.
Proof. by destruct v. Qed.

Lemma object_encodable m :
  Redis.mapEncodable m = true -> Redis.mapEncodable (Json.object m) = true.
Proof.
  unfold Redis.mapEncodable. rewrite !forallb_forall. intros Hm [k v] Hkv.
  apply list_elem_of_In, elem_of_map_to_list in Hkv. cbn [snd].
  apply object_values in Hkv as (k0 & v0 & Hk0 & ->).
  rewrite value_encodable.
  apply (Hm (k0, v0)). by apply list_elem_of_In, elem_of_map_to_list.
Qed.

(** What was read back can be written again. *)
Lemma session_encodable d :
  Redis.encodable d = true -> Redis.encodable (Json.session d) = true.
Proof.
  unfold Redis.encodable. intros [H1 H2]%andb_prop.
  cbn [Json.session RateLimits Config].
  by rewrite !object_encodable.
Qed.

End JsonFacts.

(** ** The Redis-backed store *)

Section RedisFacts.

Import Redis.

Lemma key_inj id id' : key id = key id' -> id = id'.
Proof. unfold key. apply (inj (String.app sessionKeyPrefix)). Qed.

Lemma key_ne id id' : id <> id' -> key id <> key id'.
Proof. intros Hne Hk. by apply Hne, key_inj. Qed.

Lemma marshalJSON_Some d b : marshalJSON d = Some b -> b = Encoded (Json.session d).
Proof. unfold marshalJSON. destruct (encodable d); congruence. Qed.

Lemma marshalJSON_encodable d :
  encodable d = true -> marshalJSON d = Some (Encoded (Json.session d)).
Proof. unfold marshalJSON. by intros ->. Qed.

Lemma roundTrip_Live fault : roundTrip Live fault = ErrTransport <$> fault.
Proof. done. Qed.

(** No round trip ever fails with one of the store's own two errors. *)
Lemma roundTrip_transport ctx fault e :
  roundTrip ctx fault = Some e -> e <> ErrNotFound /\ e <> ErrVersionConflict.
Proof.
  unfold roundTrip, ctxErr.
  destruct ctx, fault; cbn; intros [= <-]; split; discriminate.
Qed.

(** What goes out for a positive duration is positive. *)
Lemma formatSec_pos dur : 0 < dur -> 0 < formatSec dur.
Proof.
  intros Hpos. unfold formatSec, Second.
  destruct (Z.ltb_spec 0 dur); [|lia].
  destruct (Z.ltb_spec dur 1000000000); cbn [andb]; [lia|].
  apply Z.quot_str_pos. lia.
Qed.

Lemma formatMs_pos dur : 0 < dur -> 0 < formatMs dur.
Proof.
  intros Hpos. unfold formatMs, Millisecond.
  destruct (Z.ltb_spec 0 dur); [|lia].
  destruct (Z.ltb_spec dur 1000000); cbn [andb]; [lia|].
  apply Z.quot_str_pos. lia.
Qed.

Lemma rUpdate_NotFound ctx net now s data db :
  roundTrip ctx (watchFault net) = None ->
  roundTrip ctx (getFault net) = None ->
  db !! key (ID data) = None ->
  Update ctx net now s data db = (data, db, Some ErrNotFound).
Proof.
  intros Hw Hg Hk. unfold Update, cmdGet. by rewrite Hw, Hg, Hk.
Qed.

Lemma rUpdate_VersionConflict ctx net now s data db e stored :
  roundTrip ctx (watchFault net) = None ->
  roundTrip ctx (getFault net) = None ->
  db !! key (ID data) = Some e ->
  unmarshalJSON (value e) = Some stored ->
  Version stored <> Version data ->
  Update ctx net now s data db = (data, db, Some ErrVersionConflict).
Proof.
  intros Hw Hg Hk Hu Hne. unfold Update, cmdGet. rewrite Hw, Hg, Hk, Hu.
  by destruct (Z.eqb_spec (Version stored) (Version data)).
Qed.

(** Past the version check: the caller's struct is stamped, and then the
    value is encoded and committed. *)
Lemma rUpdate_checked ctx net now s data db e stored :
  roundTrip ctx (watchFault net) = None ->
  roundTrip ctx (getFault net) = None ->
  db !! key (ID data) = Some e ->
  unmarshalJSON (value e) = Some stored ->
  Version stored = Version data ->
  Update ctx net now s data db =
    match marshalJSON (stampUpdate now data) with
    | None => (stampUpdate now data, db, Some ErrMarshal)
    | Some newVal =>
        let '(db1, err) := TxPipelined ctx net (key (ID data)) newVal (ttl s) db in
        (stampUpdate now data, db1, err)
    end.
Proof.
  intros Hw Hg Hk Hu Hv. unfold Update, cmdGet. rewrite Hw, Hg, Hk, Hu.
  by rewrite Hv, Z.eqb_refl.
Qed.

(** What a successful [Update] must have found and done. *)
Lemma rUpdate_success ctx net now s data db data1 db1 :
  Update ctx net now s data db = (data1, db1, None) ->
  exists e stored,
    db !! key (ID data) = Some e
    /\ unmarshalJSON (value e) = Some stored
    /\ Version stored = Version data
    /\ data1 = stampUpdate now data
    /\ db1 = <[key (ID data) :=
                 mkEntry (Encoded (Json.session data1)) (setExpiry (ttl s) (Some e))]> db.
Proof.
  unfold Update, cmdGet, TxPipelined. intros H.
  destruct (roundTrip ctx (watchFault net)); [discriminate|].
  destruct (roundTrip ctx (getFault net)); [discriminate|].
  destruct (db !! key (ID data)) as [e|] eqn:Hk; [|discriminate].
  destruct (unmarshalJSON (value e)) as [stored|] eqn:Hu; [|discriminate].
  destruct (Z.eqb_spec (Version stored) (Version data)) as [Hv|]; [|discriminate].
  cbn [negb] in H.
  destruct (marshalJSON (stampUpdate now data)) as [newVal|] eqn:Hm; [|discriminate].
  apply marshalJSON_Some in Hm as ->.
  destruct (roundTrip ctx (execFault net)); [discriminate|].
  destruct (touched net); [discriminate|].
  injection H as <- <-. by exists e, stored.
Qed.

(** An [Update] that fails with [ErrNotFound] or [ErrVersionConflict] has
    written nothing and has not touched the caller's struct. *)
Lemma rUpdate_lock_failure ctx net now s data db data1 db1 err :
  Update ctx net now s data db = (data1, db1, Some err) ->
  err = ErrNotFound \/ err = ErrVersionConflict ->
  data1 = data /\ db1 = db.
Proof.
  unfold Update, cmdGet, TxPipelined. intros H Herr.
  destruct (roundTrip ctx (watchFault net)) eqn:Hw; [by injection H as <- <- _|].
  destruct (roundTrip ctx (getFault net)) eqn:Hg; [by injection H as <- <- _|].
  destruct (db !! key (ID data)) as [e|]; [|by injection H as <- <- _].
  destruct (unmarshalJSON (value e)) as [stored|]; [|by injection H as <- <- _].
  destruct (negb (Version stored =? Version data)); [by injection H as <- <- _|].
  destruct (marshalJSON (stampUpdate now data)) as [newVal|].
  - destruct (roundTrip ctx (execFault net)) as [e'|] eqn:He.
    + injection H as _ _ <-. apply roundTrip_transport in He. intuition congruence.
    + destruct (touched net).
      * injection H as _ _ <-. intuition congruence.
      * discriminate.
  - injection H as _ _ <-. intuition congruence.
Qed.

(** A [Get] that returns a session returns the stored one; a store with a
    positive time to live leaves it stored, and only its time to live may
    have changed. *)
Lemma rGet_found ctx net s id db d db1 err :
  Get ctx net s id db = (Some d, db1, err) ->
  err = None /\ storedRecord id db = Some d
  /\ (0 < ttl s -> storedRecord id db1 = Some d).
Proof.
  unfold Get, cmdGet, cmdExpire, storedRecord. intros H.
  destruct (roundTrip ctx (getFault net)); [discriminate|].
  destruct (db !! key id) as [e|] eqn:Hk; [|discriminate].
  destruct (unmarshalJSON (value e)) as [d'|] eqn:Hu; [|discriminate].
  destruct (roundTrip ctx (expireFault net)).
  - injection H as <- <- <-. by rewrite Hk.
  - destruct (Z.leb_spec (formatSec (ttl s)) 0) as [Hle|Hgt].
    + injection H as <- <- <-. split; [done|]. split; [done|].
      intros Hpos. apply formatSec_pos in Hpos. lia.
    + injection H as <- <- <-. by rewrite lookup_alter_eq, Hk.
Qed.

Lemma storedRecord_insert id d t db :
  storedRecord id (<[key id := mkEntry (Encoded d) t]> db) = Some d.
Proof. unfold storedRecord. by rewrite lookup_insert_eq. Qed.

(** A round that went through moved the stored version on by one. *)
Lemma redisRound_bumps s id t db db2 d :
  validUTF8 id ->
  Caller.redisRound s id t db = Some db2 ->
  storedRecord id db = Some d ->
  ID d = id ->
  exists d2,
    storedRecord id db2 = Some d2
    /\ ID d2 = id
    /\ Version d2 = wrap64 (Version d + 1).
Proof.
  unfold Caller.redisRound. intros Hvalid Hround Hrec Hid.
  destruct (Get (Caller.turnCtx t) (Caller.turnNet t) s id db)
    as [[[d'|] db1] err] eqn:Hget; [|by destruct err].
  apply rGet_found in Hget as (-> & Hrec' & _).
  assert (d' = d) as -> by congruence.
  destruct (Update _ _ _ _ _ db1) as [[data1 db1'] [err|]] eqn:Hupd; [discriminate|].
  injection Hround as <-.
  apply rUpdate_success in Hupd as (e1 & stored & _ & _ & _ & -> & ->).
  cbn [setConversationHistory ID]. rewrite Hid, storedRecord_insert.
  eexists. split; [reflexivity|]. split; [|done].
  rewrite session_ID. cbn [stampUpdate setUpdatedAt setVersion setConversationHistory ID].
  by rewrite Hid.
Qed.

Lemma redisRounds_version s id turns db db2 d x :
  validUTF8 id ->
  Caller.redisRounds s id turns db = Some db2 ->
  storedRecord id db = Some d ->
  ID d = id ->
  Version d = wrap64 x ->
  storedVersion id db2 = Some (wrap64 (x + len turns)).
Proof.
  intros Hvalid.
  revert db d x. induction turns as [|t rest IH]; intros db d x Hrun Hrec Hid Hv.
  - injection Hrun as <-. unfold storedVersion. rewrite Hrec. cbn.
    rewrite Hv. do 2 f_equal. unfold len. cbn. lia.
  - cbn [Caller.redisRounds] in Hrun.
    destruct (Caller.redisRound s id t db) as [db1|] eqn:Hr; [|discriminate].
    destruct (redisRound_bumps s id t db db1 d Hvalid Hr Hrec Hid)
      as (d1 & Hrec1 & Hid1 & Hv1).
    rewrite Hv, wrap64_add_l in Hv1.
    rewrite (IH db1 d1 (x + 1) Hrun Hrec1 Hid1 Hv1). do 2 f_equal.
    unfold len. cbn [length]. lia.
Qed.

End RedisFacts.

Section RedisRounds.

Import Redis.

Lemma rCreate_success ctx net now s data db data1 db1 :
  Create ctx net now s data db = (data1, db1, None) ->
  data1 = stampCreate now data
  /\ db1 = <[key (ID data) :=
               mkEntry (Encoded (Json.session data1))
                       (setExpiry (ttl s) (db !! key (ID data)))]> db.
Proof.
  unfold Create, cmdSet. intros H.
  destruct (marshalJSON (stampCreate now data)) as [val|] eqn:Hm; [|discriminate].
  apply marshalJSON_Some in Hm as ->.
  destruct (roundTrip ctx (setFault net)); [discriminate|].
  by injection H as <- <-.
Qed.

(** [Get] in a network without faults, on a store with a positive time to
    live. *)
Lemma rGet_quiet s id db e d :
  0 < ttl s ->
  db !! key id = Some e ->
  unmarshalJSON (value e) = Some d ->
  Get Live quiet s id db
  = (Some d,
     alter (fun e => mkEntry (value e) (Some (formatSec (ttl s) * Second))) (key id) db,
     None).
Proof.
  intros Hpos Hk Hu. unfold Get, cmdGet, cmdExpire.
  cbn [roundTrip ctxErr getFault expireFault quiet fmap option_fmap option_map].
  rewrite Hk, Hu. apply formatSec_pos in Hpos.
  by destruct (Z.leb_spec (formatSec (ttl s)) 0); [lia|].
Qed.

(** [Update] in a network without faults, past the version check. *)
Lemma rUpdate_quiet now s data db e stored :
  db !! key (ID data) = Some e ->
  unmarshalJSON (value e) = Some stored ->
  Version stored = Version data ->
  encodable data = true ->
  Update Live quiet now s data db
  = (stampUpdate now data,
     <[key (ID data) :=
         mkEntry (Encoded (Json.session (stampUpdate now data)))
                 (setExpiry (ttl s) (Some e))]> db,
     None).
Proof.
  intros Hk Hu Hv Henc.
  rewrite (rUpdate_checked Live quiet now s data db e stored eq_refl eq_refl Hk Hu Hv).
  assert (Henc' : encodable (stampUpdate now data) = true) by exact Henc.
  rewrite (marshalJSON_encodable _ Henc'). unfold TxPipelined.
  cbn [roundTrip ctxErr execFault touched quiet fmap option_fmap option_map].
  by rewrite Hk.
Qed.

(** With a live context, a network without faults and no other client, a
    round on an encodable stored session goes through. *)
Lemma redisRound_quiet s id t db d :
  0 < ttl s ->
  validUTF8 id ->
  Caller.turnCtx t = Live ->
  Caller.turnNet t = quiet ->
  storedRecord id db = Some d ->
  ID d = id ->
  encodable d = true ->
  exists db2 d2,
    Caller.redisRound s id t db = Some db2
    /\ storedRecord id db2 = Some d2 /\ ID d2 = id /\ encodable d2 = true.
Proof.
  intros Hpos Hvalid Hctx Hnet Hrec Hid Henc.
  unfold Caller.redisRound. rewrite Hctx, Hnet.
  unfold storedRecord in Hrec.
  destruct (db !! key id) as [e|] eqn:Hk; [|discriminate].
  rewrite (rGet_quiet s id db e d Hpos Hk Hrec).
  set (db1 := alter _ (key id) db).
  set (data := setConversationHistory (Caller.turnHistory t) d).
  assert (Hk1 : db1 !! key (ID data)
                = Some (mkEntry (value e) (Some (formatSec (ttl s) * Second)))).
  { unfold db1, data. cbn [setConversationHistory ID].
    by rewrite Hid, lookup_alter_eq, Hk. }
  rewrite (rUpdate_quiet (Caller.turnNow t) s data db1 _ d Hk1 Hrec eq_refl Henc).
  eexists _, _. split; [reflexivity|].
  unfold data at 1. cbn [setConversationHistory ID].
  rewrite Hid, storedRecord_insert. split; [reflexivity|]. split.
  - rewrite session_ID. unfold data.
    cbn [stampUpdate setUpdatedAt setVersion setConversationHistory ID].
    by rewrite Hid.
  - apply session_encodable. exact Henc.
Qed.

Lemma redisRounds_quiet s id turns db d :
  0 < ttl s ->
  validUTF8 id ->
  Forall (fun t => Caller.turnCtx t = Live /\ Caller.turnNet t = quiet) turns ->
  storedRecord id db = Some d ->
  ID d = id ->
  encodable d = true ->
  exists db2, Caller.redisRounds s id turns db = Some db2.
Proof.
  intros Hpos Hvalid Hall. revert db d.
  induction Hall as [|t rest [Hctx Hnet] _ IH]; intros db d Hrec Hid Henc.
  - by exists db.
  - destruct (redisRound_quiet s id t db d Hpos Hvalid Hctx Hnet Hrec Hid Henc)
      as (db1 & d1 & Hr & Hrec1 & Hid1 & Henc1).
    cbn [Caller.redisRounds]. rewrite Hr. by apply (IH db1 d1).
Qed.

End RedisRounds.

(** C1.  [Update] is a compare-and-set on [Version], on both backends:
    [ErrNotFound] when the store has no record for the ID,
    [ErrVersionConflict] when the stored [Version] differs from the caller's,
    and on a match the record is persisted with [Version] one higher.
    After a [Create], N rounds of fetching the session and updating it
    leave the stored [Version] at [1 + N] (an [int64]: for N below the
    wrap-around).  On the Redis-backed store the first two hold when the
    commands up to the read get through; the record persisted is the
    caller's as [encoding/json] writes it; and the rounds are N rounds
    that went through for an ID that is valid UTF-8 (the ID read back is
    the one written only then): they do go through in a network without
    faults, on a store with a positive time to live, as long as the key
    does not expire in between. *)
Theorem C1_Update_compares_and_increments :
  (forall ctx now data w,
      InMemory.lookupSession (ID (InMemory.heap w data)) w = None ->
      InMemory.Update ctx now data w = Done (Some ErrNotFound, w))
  /\ (forall ctx now data w stored,
      InMemory.lookupSession (ID (InMemory.heap w data)) w = Some stored ->
      Version (InMemory.heap w stored) <> Version (InMemory.heap w data) ->
      InMemory.Update ctx now data w = Done (Some ErrVersionConflict, w))
  /\ (forall ctx now data w stored,
      InMemory.lookupSession (ID (InMemory.heap w data)) w = Some stored ->
      Version (InMemory.heap w stored) = Version (InMemory.heap w data) ->
      exists w1,
        InMemory.Update ctx now data w = Done (None, w1)
        /\ InMemory.storedRecord (ID (InMemory.heap w data)) w1
           = Some (stampUpdate now (InMemory.heap w data))
        /\ InMemory.storedVersion (ID (InMemory.heap w data)) w1
           = Some (wrap64 (Version (InMemory.heap w stored) + 1))
        /\ (inRange (Version (InMemory.heap w stored)) ->
            Version (InMemory.heap w stored) < MaxInt64 ->
            InMemory.storedVersion (ID (InMemory.heap w data)) w1
            = Some (Version (InMemory.heap w stored) + 1)))
  /\ (forall ctx now data w m turns,
      InMemory.sessions w = Some m ->
      1 + len turns <= MaxInt64 ->
      exists w1 w2,
        InMemory.Create ctx now data w = Done (None, w1)
        /\ Caller.memRounds (ID (InMemory.heap w data)) turns w1 = Some w2
        /\ InMemory.storedVersion (ID (InMemory.heap w data)) w2
           = Some (1 + len turns))
  /\ (forall ctx net now s data db,
      Redis.roundTrip ctx (Redis.watchFault net) = None ->
      Redis.roundTrip ctx (Redis.getFault net) = None ->
      db !! Redis.key (ID data) = None ->
      Redis.Update ctx net now s data db = (data, db, Some ErrNotFound))
  /\ (forall ctx net now s data db e stored,
      Redis.roundTrip ctx (Redis.watchFault net) = None ->
      Redis.roundTrip ctx (Redis.getFault net) = None ->
      db !! Redis.key (ID data) = Some e ->
      Redis.unmarshalJSON (Redis.value e) = Some stored ->
      Version stored <> Version data ->
      Redis.Update ctx net now s data db = (data, db, Some ErrVersionConflict))
  /\ (forall ctx net now s data db data1 db1,
      Redis.Update ctx net now s data db = (data1, db1, None) ->
      exists stored,
        Redis.storedRecord (ID data) db = Some stored
        /\ Version stored = Version data
        /\ Redis.storedRecord (ID data) db1 = Some (Json.session (stampUpdate now data))
        /\ Redis.storedVersion (ID data) db1 = Some (wrap64 (Version stored + 1))
        /\ (inRange (Version stored) -> Version stored < MaxInt64 ->
            Redis.storedVersion (ID data) db1 = Some (Version stored + 1)))
  /\ (forall ctx net now s data db data1 db1 turns db2,
      validUTF8 (ID data) ->
      Redis.Create ctx net now s data db = (data1, db1, None) ->
      Caller.redisRounds s (ID data) turns db1 = Some db2 ->
      1 + len turns <= MaxInt64 ->
      Redis.storedVersion (ID data) db2 = Some (1 + len turns))
  /\ (forall now s data db turns,
      0 < Redis.ttl s ->
      validUTF8 (ID data) ->
      Redis.encodable data = true ->
      Forall (fun t => Caller.turnCtx t = Live /\ Caller.turnNet t = Redis.quiet) turns ->
      exists data1 db1 db2,
        Redis.Create Live Redis.quiet now s data db = (data1, db1, None)
        /\ Caller.redisRounds s (ID data) turns db1 = Some db2).
Proof.
  assert (Hsmall : forall n : Z, 0 <= n -> 1 + n <= MaxInt64 -> wrap64 (1 + n) = 1 + n).
  { intros n ? ?. apply wrap64_id. unfold inRange, MinInt64, MaxInt64 in *. lia. }
  repeat apply conj.
  - intros. by apply Update_NotFound.
  - intros. by eapply Update_VersionConflict.
  - intros ctx now data w stored Hlk Hv.
    destruct (Update_match ctx now data w stored Hlk Hv) as (m & Hm & ->).
    eexists. split; [reflexivity|].
    split; [apply storedRecord_written|].
    assert (Hver : InMemory.storedVersion (ID (InMemory.heap w data))
                     (InMemory.mkWorld
                        (InMemory.store data (stampUpdate now (InMemory.heap w data))
                           (InMemory.heap w))
                        (Some (<[ID (InMemory.heap w data) := data]> m)))
                   = Some (wrap64 (Version (InMemory.heap w stored) + 1))).
    { rewrite storedVersion_written. cbn [stampUpdate setUpdatedAt setVersion Version].
      by rewrite Hv. }
    split; [exact Hver|].
    intros Hr Hlt. by rewrite Hver, wrap64_succ.
  - intros ctx now data w m turns Hm Hb.
    rewrite (Create_open ctx now data w m Hm).
    set (id := ID (InMemory.heap w data)).
    set (w1 := InMemory.mkWorld _ _).
    assert (Hlk : InMemory.lookupSession id w1 = Some data)
      by apply lookupSession_written.
    assert (Hh : InMemory.heap w1 data = stampCreate now (InMemory.heap w data))
      by (unfold w1; cbn [InMemory.heap]; apply store_same).
    destruct (memRounds_version id turns w1 data 1 Hlk) as (w2 & Hrun & Hsv).
    + by rewrite Hh.
    + by rewrite Hh.
    + exists w1, w2. split; [done|]. split; [done|].
      rewrite Hsv, Hsmall; [done | unfold len; lia | done].
  - intros. by apply rUpdate_NotFound.
  - intros. by eapply rUpdate_VersionConflict.
  - intros ctx net now s data db data1 db1 Hupd.
    apply rUpdate_success in Hupd as (e & stored & Hk & Hu & Hv & -> & ->).
    exists stored.
    assert (Hrec : Redis.storedRecord (ID data) db = Some stored)
      by (unfold Redis.storedRecord; by rewrite Hk).
    assert (Hver : Redis.storedVersion (ID data)
                     (<[Redis.key (ID data) :=
                          Redis.mkEntry (Redis.Encoded (Json.session (stampUpdate now data)))
                            (Redis.setExpiry (Redis.ttl s) (Some e))]> db)
                   = Some (wrap64 (Version stored + 1))).
    { unfold Redis.storedVersion. rewrite storedRecord_insert. cbn. by rewrite Hv. }
    split; [done|]. split; [done|]. split; [apply storedRecord_insert|].
    split; [exact Hver|]. intros Hr Hlt. by rewrite Hver, wrap64_succ.
  - intros ctx net now s data db data1 db1 turns db2 Hvalid Hc Hrun Hb.
    apply rCreate_success in Hc as (-> & ->).
    rewrite (redisRounds_version s (ID data) turns _ db2
               (Json.session (stampCreate now data)) 1 Hvalid Hrun);
      [| apply storedRecord_insert | exact Hvalid | done].
    rewrite Hsmall; [done | unfold len; lia | done].
  - intros now s data db turns Hpos Hvalid Henc Hall.
    unfold Redis.Create.
    assert (Henc' : Redis.encodable (stampCreate now data) = true) by exact Henc.
    rewrite (marshalJSON_encodable _ Henc'). cbn.
    destruct (redisRounds_quiet s (ID data) turns
                (<[Redis.key (ID data) :=
                     Redis.mkEntry (Redis.Encoded (Json.session (stampCreate now data)))
                       (Redis.setExpiry (Redis.ttl s) (db !! Redis.key (ID data)))]> db)
                (Json.session (stampCreate now data)) Hpos Hvalid Hall) as (db2 & Hrun);
      [apply storedRecord_insert | exact Hvalid | by apply session_encodable |].
    by eexists _, _, db2.
Qed.

Lemma C1_Update_witness :
  (exists w1 w2,
      InMemory.Create Live 10 1%positive (InMemory.NewInMemoryStore sampleHeap)
      = Done (None, w1)
      /\ Caller.memRounds "s1" [(11, []); (12, []); (13, [])] w1 = Some w2
      /\ InMemory.storedVersion "s1" w2 = Some 4)
  /\ InMemory.Update Live 10 3%positive
       (InMemory.mkWorld sampleHeap (Some (<["s1" := 1%positive]> ∅)))
     = Done (Some ErrVersionConflict,
             InMemory.mkWorld sampleHeap (Some (<["s1" := 1%positive]> ∅)))
  /\ (exists data1 db1 db2,
        Redis.Create Live Redis.quiet 10 (Redis.NewRedisStore 0) (sampleSession "s1" 0) ∅
        = (data1, db1, None)
        /\ Caller.redisRounds (Redis.NewRedisStore 0) "s1"
             [Caller.mkTurn Live Redis.quiet 11 []; Caller.mkTurn Live Redis.quiet 12 []]
             db1 = Some db2
        /\ Redis.storedVersion "s1" db2 = Some 3).
Proof.
  destruct C1_Update_compares_and_increments
    as (_ & Hconflict & _ & Hrounds & _ & _ & _ & Hcount & Hquiet).
  split; [|split].
  - apply (Hrounds Live 10 1%positive (InMemory.NewInMemoryStore sampleHeap) ∅
             [(11, []); (12, []); (13, [])]).
    + reflexivity.
    + unfold len, MaxInt64. cbn [length]. lia.
  - apply (Hconflict Live 10 3%positive _ 1%positive).
    + reflexivity.
    + vm_compute. discriminate.
  - assert (Hvalid : validUTF8 (ID (sampleSession "s1" 0))) by reflexivity.
    destruct (Hquiet 10 (Redis.NewRedisStore 0) (sampleSession "s1" 0) ∅
                [Caller.mkTurn Live Redis.quiet 11 []; Caller.mkTurn Live Redis.quiet 12 []])
      as (data1 & db1 & db2 & Hc & Hrun).
    + reflexivity.
    + exact Hvalid.
    + reflexivity.
    + repeat constructor.
    + exists data1, db1, db2. split; [exact Hc|]. split; [exact Hrun|].
      apply (Hcount Live Redis.quiet 10 (Redis.NewRedisStore 0) (sampleSession "s1" 0) ∅
               data1 db1 _ db2 Hvalid Hc Hrun).
      unfold len, MaxInt64. cbn [length]. lia.
Defined.

(** C3.  An [Update] that fails with [ErrNotFound] or [ErrVersionConflict]
    has changed nothing: the store holds what it held, and the caller's
    struct has the [Version] and [UpdatedAt] (and everything else) it came
    with.  On the in-memory store these two are the only failures there
    are, and the whole state, heap and map, is the one before the call. *)
Theorem C3_failed_Update_leaves_state
    (ctx : Context) (now : instant) (e : error) :
  e = ErrNotFound \/ e = ErrVersionConflict ->
  (forall data w w1,
      InMemory.Update ctx now data w = Done (Some e, w1) ->
      w1 = w
      /\ InMemory.heap w1 data = InMemory.heap w data
      /\ InMemory.storedRecord (ID (InMemory.heap w data)) w1
         = InMemory.storedRecord (ID (InMemory.heap w data)) w)
  /\ (forall net s data db data1 db1,
      Redis.Update ctx net now s data db = (data1, db1, Some e) ->
      data1 = data /\ db1 = db).
Proof.
  intros He. split.
  - intros data w w1 H. apply Update_failure in H as [_ ->]. done.
  - intros net s data db data1 db1 H. by eapply rUpdate_lock_failure.
Qed.

Lemma C3_failed_Update_witness :
  let w := InMemory.mkWorld sampleHeap (Some (<["s1" := 1%positive]> ∅)) in
  let db : gmap string Redis.entry :=
    <[Redis.key "s1" := Redis.mkEntry (Redis.Encoded (sampleSession "s1" 2)) (Some 60)]> ∅ in
  exists w1 data1 db1,
    InMemory.Update Live 10 3%positive w = Done (Some ErrVersionConflict, w1)
    /\ w1 = w
    /\ Redis.Update Live Redis.quiet 10 (Redis.NewRedisStore 0) (sampleSession "s1" 1) db
       = (data1, db1, Some ErrVersionConflict)
    /\ data1 = sampleSession "s1" 1 /\ db1 = db.
Proof.
  intros w db.
  assert (Hm : InMemory.Update Live 10 3%positive w = Done (Some ErrVersionConflict, w))
    by reflexivity.
  assert (Hr : Redis.Update Live Redis.quiet 10 (Redis.NewRedisStore 0)
                 (sampleSession "s1" 1) db
               = (sampleSession "s1" 1, db, Some ErrVersionConflict))
    by reflexivity.
  destruct (C3_failed_Update_leaves_state Live 10 ErrVersionConflict) as [Hmem Hredis];
    [by right|].
  exists w, (sampleSession "s1" 1), db.
  split; [exact Hm|]. split; [exact (proj1 (Hmem _ _ _ Hm))|].
  split; [exact Hr|]. exact (Hredis _ _ _ _ _ _ Hr).
Defined.

(** C4.  [Create] does not look for an existing record.  On the in-memory
    store it succeeds whatever the map holds and whatever [Version] and
    timestamps the caller supplied, and a [Get] straight after returns the
    record with [Version] 1 and both timestamps equal to the time of the
    call.  On the Redis-backed store its error, if any, is never
    [ErrNotFound] or [ErrVersionConflict] and does not depend on what the
    cache holds; when it returns no error, the next [Get] that gets
    through returns [Version] 1 and equal timestamps. *)
Theorem C4_Create_overwrites_with_version_1
    (now : instant) :
  (forall ctx ctx1 data w m,
      InMemory.sessions w = Some m ->
      exists w1,
        InMemory.Create ctx now data w = Done (None, w1)
        /\ InMemory.Get ctx1 (ID (InMemory.heap w data)) w1 = Done (Some data, None)
        /\ Version (InMemory.heap w1 data) = 1
        /\ CreatedAt (InMemory.heap w1 data) = now
        /\ UpdatedAt (InMemory.heap w1 data) = now
        /\ CreatedAt (InMemory.heap w1 data) = UpdatedAt (InMemory.heap w1 data))
  /\ (forall ctx net s data db data1 db1 err,
      Redis.Create ctx net now s data db = (data1, db1, err) ->
      err <> Some ErrNotFound /\ err <> Some ErrVersionConflict
      /\ (forall db', (Redis.Create ctx net now s data db').2 = err)
      /\ (err = None ->
          forall net1 d db2 err2,
            Redis.getFault net1 = None ->
            Redis.Get Live net1 s (ID data) db1 = (d, db2, err2) ->
            err2 = None
            /\ exists d1, d = Some d1 /\ Version d1 = 1
                 /\ CreatedAt d1 = now /\ UpdatedAt d1 = now
                 /\ CreatedAt d1 = UpdatedAt d1))
  /\ (forall s data db,
      Redis.encodable data = true ->
      exists db1,
        Redis.Create Live Redis.quiet now s data db = (stampCreate now data, db1, None)).
Proof.
  repeat apply conj.
  - intros ctx ctx1 data w m Hm. rewrite (Create_open ctx now data w m Hm).
    eexists. split; [reflexivity|].
    unfold InMemory.Get. rewrite lookupSession_written.
    cbn [InMemory.heap]. by rewrite store_same.
  - intros ctx net s data db data1 db1 err Hc.
    unfold Redis.Create, Redis.cmdSet in *.
    destruct (Redis.marshalJSON (stampCreate now data)) as [val|] eqn:Hm.
    + destruct (Redis.roundTrip ctx (Redis.setFault net)) as [e|] eqn:Hrt.
      * injection Hc as <- <- <-.
        apply roundTrip_transport in Hrt as [? ?].
        split; [congruence|]. split; [congruence|]. split; [done | discriminate].
      * injection Hc as <- <- <-.
        apply marshalJSON_Some in Hm as ->.
        split; [discriminate|]. split; [discriminate|]. split; [done|].
        intros _ net1 d db2 err2 Hg Hget.
        unfold Redis.Get, Redis.cmdGet, Redis.cmdExpire in Hget.
        rewrite roundTrip_Live, Hg, lookup_insert_eq in Hget.
        cbn [fmap option_fmap option_map Redis.value Redis.unmarshalJSON] in Hget.
        destruct (Redis.roundTrip Live (Redis.expireFault net1));
          [|destruct (Redis.formatSec (Redis.ttl s) <=? 0)];
          injection Hget as <- <- <-; (split; [done|]);
          by exists (Json.session (stampCreate now data)).
    + injection Hc as <- <- <-.
      split; [discriminate|]. split; [discriminate|]. split; [done | discriminate].
  - intros s data db Henc. unfold Redis.Create.
    assert (Henc' : Redis.encodable (stampCreate now data) = true) by exact Henc.
    rewrite (marshalJSON_encodable _ Henc'). cbn. by eexists.
Qed.

Lemma C4_Create_witness :
  let w := InMemory.mkWorld sampleHeap (Some (<["s1" := 1%positive]> ∅)) in
  exists w1,
    InMemory.Create Canceled 10 3%positive w = Done (None, w1)
    /\ InMemory.Get Live "s1" w1 = Done (Some 3%positive, None)
    /\ Version (InMemory.heap w1 3%positive) = 1
    /\ CreatedAt (InMemory.heap w1 3%positive) = UpdatedAt (InMemory.heap w1 3%positive).
Proof.
  intros w.
  destruct (C4_Create_overwrites_with_version_1 10) as (Hmem & _).
  destruct (Hmem Canceled Live 3%positive w (<["s1" := 1%positive]> ∅) eq_refl)
    as (w1 & Hc & Hg & Hv & _ & _ & Ht).
  exists w1. repeat split; assumption.
Defined.

(** C5 as stated fails on the in-memory store: none of its methods reads
    its context.  [Create] under a cancelled context returns no error and
    the record is in the store. *)
Lemma C5_in_memory_ignores_context_counterexample :
  exists w1,
    InMemory.Create Canceled 10 1%positive (InMemory.NewInMemoryStore sampleHeap)
    = Done (None, w1)
    /\ InMemory.Get Canceled "s1" w1 = Done (Some 1%positive, None)
    /\ InMemory.storedVersion "s1" w1 = Some 1.
Proof. eexists. split; [reflexivity|]. split; reflexivity. Qed.

(** C5, amended.  Under a context that is cancelled or past its deadline:
    the methods of the in-memory store do exactly what they do under a
    live context; the methods of the Redis-backed store write nothing to
    the cache and return an error, which is the context's error handed
    back by the first command they send ([Create] encodes the session
    first, and returns the encoding error when there is one). *)
Theorem C5_cancellation_by_backend (ctx : Context) :
  ctx <> Live ->
  (forall now data id w,
      InMemory.Create ctx now data w = InMemory.Create Live now data w
      /\ InMemory.Get ctx id w = InMemory.Get Live id w
      /\ InMemory.Update ctx now data w = InMemory.Update Live now data w
      /\ InMemory.Delete ctx id w = InMemory.Delete Live id w)
  /\ (forall net now s data id db,
      (exists err,
          Redis.Create ctx net now s data db = (stampCreate now data, db, Some err)
          /\ (Redis.encodable data = true -> err = ErrContext ctx)
          /\ (Redis.encodable data = false -> err = ErrMarshal))
      /\ Redis.Get ctx net s id db = (None, db, Some (ErrContext ctx))
      /\ Redis.Update ctx net now s data db = (data, db, Some (ErrContext ctx))
      /\ Redis.Delete ctx net s id db = (db, Some (ErrContext ctx))).
Proof.
  intros Hctx.
  assert (Hrt : forall fault, Redis.roundTrip ctx fault = Some (ErrContext ctx))
    by (intros fault; by destruct ctx).
  split.
  - done.
  - intros net now s data id db. repeat apply conj.
    + unfold Redis.Create, Redis.marshalJSON, Redis.cmdSet.
      assert (Henc : Redis.encodable (stampCreate now data) = Redis.encodable data)
        by reflexivity.
      rewrite Henc, Hrt. destruct (Redis.encodable data); eexists; by repeat split.
    + unfold Redis.Get, Redis.cmdGet. by rewrite Hrt.
    + unfold Redis.Update. by rewrite Hrt.
    + unfold Redis.Delete, Redis.cmdDel. by rewrite Hrt.
Qed.

Lemma C5_cancellation_witness :
  Redis.Update DeadlineExceeded Redis.quiet 10 (Redis.NewRedisStore 0)
    (sampleSession "s1" 1) ∅
  = (sampleSession "s1" 1, ∅, Some (ErrContext DeadlineExceeded))
  /\ InMemory.Delete DeadlineExceeded "s1" (InMemory.NewInMemoryStore sampleHeap)
     = InMemory.Delete Live "s1" (InMemory.NewInMemoryStore sampleHeap).
Proof.
  destruct (C5_cancellation_by_backend DeadlineExceeded) as [Hmem Hredis];
    [discriminate|].
  split.
  - apply (Hredis Redis.quiet 10 (Redis.NewRedisStore 0) (sampleSession "s1" 1) "s1" ∅).
  - apply (Hmem 10 1%positive "s1" (InMemory.NewInMemoryStore sampleHeap)).
Defined.




(** ** Versions along a sequence of calls *)

Section LifetimeFacts.

Context {state call : Type}.
Variable step : call -> state -> option (bool * state).
Variable version : state -> option Z.
Variable about : call -> state -> bool.
Variable creates : call -> bool.

(** What a store has to do for the lemma below: [Inv] is an invariant of
    its states and [allowed] a condition on the calls. *)
Variable Inv : state -> Prop.
Variable allowed : call -> Prop.

Hypothesis step_inv : forall c st ok st1,
  allowed c -> Inv st -> step c st = Some (ok, st1) -> Inv st1.
Hypothesis step_update : forall c st st1,
  allowed c -> Inv st -> step c st = Some (true, st1) ->
  about c st = true -> creates c = false ->
  exists v, version st = Some v /\ version st1 = Some (wrap64 (v + 1)).
Hypothesis step_create : forall c st st1,
  allowed c -> Inv st -> step c st = Some (true, st1) ->
  about c st = true -> creates c = true ->
  version st1 = Some 1.
Hypothesis step_other : forall c st ok st1,
  allowed c -> Inv st -> step c st = Some (ok, st1) ->
  ok && about c st = false ->
  version st1 = None \/ version st1 = version st.


End LifetimeFacts.

Section Lifetimes.

Import Caller.







End Lifetimes.

Section MemoryVersions.

Import InMemory.










End MemoryVersions.

Section RedisVersions.

Import Redis.






End RedisVersions.




(** * Further properties of the code *)

(** ** Token estimation *)

Section TokenBounds.

Lemma rangeRunes_ascii s :
  Forall (fun b => b < 0x80) s -> Utf8.rangeRunes s = s.
Proof.
  induction 1 as [|b rest Hb _ IH]; [done|].
  cbn [Utf8.rangeRunes]. destruct (Z.ltb_spec b 0x80); [|lia]. by rewrite IH.
Qed.

Lemma weightSum_ascii rs :
  Forall (fun r => r <= 127) rs -> weightSum rs = len rs.
Proof.
  unfold len. induction 1 as [|r rest Hr _ IH]; [done|].
  cbn [weightSum foldr length]. fold (weightSum rest). unfold runeWeight.
  destruct (Z.leb_spec r 127); lia.
Qed.

Lemma weightSum_wide rs :
  Forall (fun r => 127 < r) rs -> weightSum rs = 4 * len rs.
Proof.
  unfold len. induction 1 as [|r rest Hr _ IH]; [done|].
  cbn [weightSum foldr length]. fold (weightSum rest). unfold runeWeight.
  destruct (Z.leb_spec r 127); lia.
Qed.

Lemma weightSum_lower rs : len rs <= weightSum rs.
Proof.
  unfold len. induction rs as [|r rest IH]; [done|].
  cbn [weightSum foldr length]. fold (weightSum rest). unfold runeWeight.
  destruct (r <=? 127); lia.
Qed.

End TokenBounds.

(** X1.  On text made of ASCII bytes only, the estimate is the byte length
    divided by four, rounded up: four characters to the token. *)
Theorem X1_EstimateTokens_ascii (text : string) :
  4 * Z.of_nat (String.length text) + 3 <= MaxInt64 ->
  Forall (fun b => b < 0x80) (Utf8.bytes text) ->
  EstimateTokens text = (Z.of_nat (String.length text) + 3) / 4.
Proof.
  intros Hlen Hascii. rewrite EstimateTokens_spec by done. unfold specEstimate.
  rewrite rangeRunes_ascii by done.
  rewrite weightSum_ascii.
  - unfold len. by rewrite bytes_length.
  - eapply Forall_impl; [exact Hascii|]. cbn. intros. lia.
Qed.

Lemma X1_EstimateTokens_ascii_witness : EstimateTokens "hello, world" = (12 + 3) / 4.
Proof.
  apply (X1_EstimateTokens_ascii "hello, world").
  - vm_compute. discriminate.
  - repeat constructor.
Defined.

(** X2.  The estimate lies between a quarter of the number of characters
    (rounded up) and the number of characters, which is at most the number
    of bytes; it is the number of characters exactly when none of them is
    ASCII: one token for each such character. *)
Theorem X2_EstimateTokens_bounds (text : string) :
  4 * Z.of_nat (String.length text) + 3 <= MaxInt64 ->
  let runes := Utf8.rangeRunes (Utf8.bytes text) in
  (len runes + 3) / 4 <= EstimateTokens text
  /\ EstimateTokens text <= len runes
  /\ len runes <= Z.of_nat (String.length text)
  /\ (Forall (fun r => 127 < r) runes -> EstimateTokens text = len runes).
Proof.
  intros Hlen runes. rewrite EstimateTokens_spec by done. unfold specEstimate.
  fold runes.
  pose proof (weightSum_bounds runes) as [_ Hup].
  pose proof (weightSum_lower runes) as Hlow.
  assert (Hn : 0 <= len runes) by (unfold len; lia).
  repeat apply conj.
  - apply Z.div_le_mono; lia.
  - assert ((weightSum runes + 3) / 4 < len runes + 1); [|lia].
    apply Z.div_lt_upper_bound; lia.
  - unfold len, runes. rewrite <- bytes_length.
    pose proof (rangeRunes_length (Utf8.bytes text)). lia.
  - intros Hwide. rewrite weightSum_wide by done.
    replace (4 * len runes + 3) with (3 + len runes * 4) by lia.
    rewrite Z.div_add by lia. done.
Qed.

Lemma X2_EstimateTokens_bounds_witness :
  EstimateTokens "日本語" = len (Utf8.rangeRunes (Utf8.bytes "日本語")).
Proof.
  apply (X2_EstimateTokens_bounds "日本語").
  - vm_compute. discriminate.
  - vm_compute. repeat constructor.
Defined.

(** ** History truncation: what is kept *)

Section TruncationBudget.

(** On counts that are not negative and add up inside an [int], the loop
    stops at the longest suffix whose counts fit the budget. *)
Lemma dropOldest_exact history tokenLimit :
  Forall (fun msg => 0 <= TokenCount msg) history ->
  totalTokenCount history <= MaxInt64 ->
  let r := dropOldest (totalTokenCount history) tokenLimit history in
  (r = [] \/ totalTokenCount r <= tokenLimit)
  /\ (forall k, (length r < length history - k)%nat ->
        tokenLimit < totalTokenCount (drop k history)).
Proof.
  induction 1 as [|msg rest Hm Hrest IH]; intros Hmax; cbn zeta.
  - split; [by left|]. intros k Hk. cbn in Hk. lia.
  - cbn [dropOldest].
    change (totalTokenCount (msg :: rest)) with (TokenCount msg + totalTokenCount rest) in *.
    pose proof (totalTokenCount_nonneg rest Hrest) as Hnn.
    destruct (Z.gtb_spec (TokenCount msg + totalTokenCount rest) tokenLimit) as [Hgt|Hle].
    + replace (wrap64 (TokenCount msg + totalTokenCount rest - TokenCount msg))
        with (totalTokenCount rest).
      2:{ symmetry. unfold MaxInt64 in Hmax.
          rewrite wrap64_id by (unfold inRange, MinInt64, MaxInt64; lia). lia. }
      destruct IH as [Hfit Hlong]; [lia|]. split; [exact Hfit|].
      intros [|k] Hk.
      * cbn [drop]. change (totalTokenCount (msg :: rest))
          with (TokenCount msg + totalTokenCount rest). lia.
      * cbn [drop]. apply Hlong. cbn [length] in Hk. lia.
    + split; [right; exact Hle|]. intros k Hk. lia.
Qed.

(** The window the message limit leaves keeps counts that are not
    negative, and its sum is at most the sum of the whole history. *)
Lemma window_counts history k :
  Forall (fun msg => 0 <= TokenCount msg) history ->
  totalTokenCount history <= MaxInt64 ->
  Forall (fun msg => 0 <= TokenCount msg) (drop k history)
  /\ sumTokens 0 (drop k history) = totalTokenCount (drop k history)
  /\ totalTokenCount (drop k history) <= MaxInt64.
Proof.
  intros Hnn Hmax.
  pose proof (totalTokenCount_drop k history Hnn) as Hle.
  assert (Hnn1 : Forall (fun msg => 0 <= TokenCount msg) (drop k history))
    by (by apply Forall_drop).
  pose proof (totalTokenCount_nonneg _ Hnn1).
  split; [done|]. split; [|lia].
  unfold MaxInt64 in Hmax.
  rewrite sumTokens_0, wrap64_id by (unfold inRange, MinInt64, MaxInt64; lia). done.
Qed.

(** The result is the input with a prefix cut off. *)
Lemma TruncateHistory_front history tokenLimit messageLimit r :
  goArgs history tokenLimit messageLimit ->
  TruncateHistory history tokenLimit messageLimit = Done r ->
  exists k, r = drop k history.
Proof.
  intros Hgo Hr. rewrite TruncateHistory_eq in Hr by done.
  destruct history as [|msg rest]; [injection Hr as <-; by exists 0%nat|].
  set (history := msg :: rest) in *.
  destruct (Z.ltb_spec messageLimit 0); [done|]. injection Hr as Hr.
  pose (k := (length history - Z.to_nat messageLimit)%nat).
  change (dropOldest (sumTokens 0 (drop k history)) tokenLimit (drop k history) = r)
    in Hr.
  destruct (dropOldest_suffix (drop k history)
              (sumTokens 0 (drop k history)) tokenLimit) as [j Hj].
  exists (k + j)%nat. by rewrite <- Hr, Hj, drop_drop.
Qed.

Lemma EstimateTokens_nonneg text :
  4 * Z.of_nat (String.length text) + 3 <= MaxInt64 -> 0 <= EstimateTokens text.
Proof.
  intros Hlen. rewrite EstimateTokens_spec by done. unfold specEstimate.
  pose proof (weightSum_bounds (Utf8.rangeRunes (Utf8.bytes text))).
  apply Z.div_pos; lia.
Qed.

End TruncationBudget.

(** What comes back is within both budgets. *)
Lemma truncate_within_budgets
    (history : list Message) (tokenLimit messageLimit : Z) :
  goArgs history tokenLimit messageLimit ->
  0 <= messageLimit ->
  Forall (fun msg => 0 <= TokenCount msg) history ->
  totalTokenCount history <= MaxInt64 ->
  exists r,
    TruncateHistory history tokenLimit messageLimit = Done r
    /\ len r <= messageLimit
    /\ len r <= len history
    /\ (r = [] \/ totalTokenCount r <= tokenLimit).
Proof.
  intros Hgo Hm Hnn Hmax. rewrite TruncateHistory_eq by done.
  destruct history as [|msg rest].
  { exists []. unfold len. cbn. repeat split; [lia | lia | by left]. }
  set (history := msg :: rest) in *.
  destruct (Z.ltb_spec messageLimit 0); [lia|]. cbn zeta.
  set (k := (length history - Z.to_nat messageLimit)%nat).
  destruct (window_counts history k Hnn Hmax) as (Hnn1 & Hsum & Hmax1).
  rewrite Hsum. eexists. split; [reflexivity|].
  pose proof (dropOldest_length (drop k history)
                (totalTokenCount (drop k history)) tokenLimit) as Hlen.
  rewrite length_drop in Hlen.
  destruct (dropOldest_exact (drop k history) tokenLimit Hnn1 Hmax1) as [Hfit _].
  unfold len, k in *. repeat split; [lia | lia | exact Hfit].
Qed.

(** X3.  With a message limit that is not negative, [TruncateHistory]
    returns a history within both budgets: at most [messageLimit]
    messages, and either none at all or token counts that add up to at
    most [tokenLimit].  (Token counts are not negative and add up inside
    an [int].) *)
Theorem X3_TruncateHistory_result_within_budgets
    (history : list Message) (tokenLimit messageLimit : Z) :
  goArgs history tokenLimit messageLimit ->
  0 <= messageLimit ->
  Forall (fun msg => 0 <= TokenCount msg) history ->
  totalTokenCount history <= MaxInt64 ->
  exists r,
    TruncateHistory history tokenLimit messageLimit = Done r
    /\ len r <= messageLimit
    /\ len r <= len history
    /\ (r = [] \/ totalTokenCount r <= tokenLimit).
Proof. apply truncate_within_budgets. Qed.

Lemma X3_TruncateHistory_witness :
  exists r,
    TruncateHistory [mkMessage "user" "a" 5 0; mkMessage "assistant" "b" 4 1;
                     mkMessage "user" "c" 3 2] 6 2 = Done r
    /\ len r <= 2 /\ (r = [] \/ totalTokenCount r <= 6).
Proof.
  destruct (X3_TruncateHistory_result_within_budgets
              [mkMessage "user" "a" 5 0; mkMessage "assistant" "b" 4 1;
               mkMessage "user" "c" 3 2] 6 2) as (r & Hr & Hcount & _ & Htok).
  - go_args.
  - lia.
  - repeat constructor; cbn; lia.
  - vm_compute. discriminate.
  - exists r. by repeat split.
Defined.

(** Nothing longer would fit. *)
Lemma truncate_longest_suffix
    (history r : list Message) (tokenLimit messageLimit : Z) :
  goArgs history tokenLimit messageLimit ->
  Forall (fun msg => 0 <= TokenCount msg) history ->
  totalTokenCount history <= MaxInt64 ->
  TruncateHistory history tokenLimit messageLimit = Done r ->
  forall k,
    (length r < length history - k)%nat ->
    len (drop k history) <= messageLimit ->
    tokenLimit < totalTokenCount (drop k history).
Proof.
  intros Hgo Hnn Hmax Hr k Hlonger Hcount.
  rewrite TruncateHistory_eq in Hr by done.
  destruct history as [|msg rest]; [cbn in Hlonger; lia|].
  set (history := msg :: rest) in *.
  destruct (Z.ltb_spec messageLimit 0) as [|Hm]; [done|].
  injection Hr as Hr.
  pose (w := (length history - Z.to_nat messageLimit)%nat).
  change (dropOldest (sumTokens 0 (drop w history)) tokenLimit (drop w history) = r) in Hr.
  destruct (window_counts history w Hnn Hmax) as (Hnn1 & Hsum & Hmax1).
  rewrite Hsum in Hr.
  destruct (dropOldest_exact (drop w history) tokenLimit Hnn1 Hmax1) as [_ Hlong].
  rewrite Hr in Hlong.
  unfold len in Hcount. rewrite length_drop in Hcount.
  assert (Hk : (w <= k)%nat) by (unfold w; lia).
  specialize (Hlong (k - w)%nat). rewrite drop_drop, length_drop in Hlong.
  replace (w + (k - w))%nat with k in Hlong by lia.
  apply Hlong. lia.
Qed.

(** X4.  [TruncateHistory] keeps as many of the most recent messages as
    the budgets allow: every longer run of most recent messages that still
    respects the message limit has token counts adding up to more than
    [tokenLimit]. *)
Theorem X4_TruncateHistory_keeps_longest_suffix
    (history r : list Message) (tokenLimit messageLimit : Z) :
  goArgs history tokenLimit messageLimit ->
  Forall (fun msg => 0 <= TokenCount msg) history ->
  totalTokenCount history <= MaxInt64 ->
  TruncateHistory history tokenLimit messageLimit = Done r ->
  forall k,
    (length r < length history - k)%nat ->
    len (drop k history) <= messageLimit ->
    tokenLimit < totalTokenCount (drop k history).
Proof. apply truncate_longest_suffix. Qed.

Lemma X4_TruncateHistory_witness :
  let history := [mkMessage "user" "a" 5 0; mkMessage "assistant" "b" 4 1;
                  mkMessage "user" "c" 3 2] in
  TruncateHistory history 6 2 = Done (drop 2 history)
  /\ 6 < totalTokenCount (drop 1 history).
Proof.
  intros history.
  assert (Hr : TruncateHistory history 6 2 = Done (drop 2 history))
    by (vm_compute; reflexivity).
  split; [exact Hr|].
  apply (X4_TruncateHistory_keeps_longest_suffix history (drop 2 history) 6 2).
  - unfold history. go_args.
  - repeat constructor; cbn; lia.
  - vm_compute. discriminate.
  - exact Hr.
  - cbn. lia.
  - unfold len. cbn. lia.
Defined.

(** X5.  When the last [messageLimit] messages fit the token budget, the
    result is exactly those messages (all of them when the history is not
    longer than the limit). *)
Theorem X5_TruncateHistory_keeps_window
    (history : list Message) (tokenLimit messageLimit : Z) :
  goArgs history tokenLimit messageLimit ->
  0 <= messageLimit ->
  Forall (fun msg => 0 <= TokenCount msg) history ->
  totalTokenCount history <= MaxInt64 ->
  let window := drop (length history - Z.to_nat messageLimit) history in
  totalTokenCount window <= tokenLimit ->
  TruncateHistory history tokenLimit messageLimit = Done window
  /\ len window = Z.min (len history) messageLimit.
Proof.
  intros Hgo Hm Hnn Hmax window Hfit. rewrite TruncateHistory_eq by done.
  assert (Hlen : len window = Z.min (len history) messageLimit)
    by (unfold len, window; rewrite length_drop; lia).
  split; [|exact Hlen].
  destruct history as [|msg rest]; [done|].
  set (history := msg :: rest) in *.
  destruct (Z.ltb_spec messageLimit 0); [lia|]. cbn zeta. fold window.
  destruct (window_counts history (length history - Z.to_nat messageLimit)
              Hnn Hmax) as (_ & Hsum & _).
  fold window in Hsum. rewrite Hsum. by rewrite dropOldest_within.
Qed.

Lemma X5_TruncateHistory_witness :
  let history := [mkMessage "user" "a" 1 0; mkMessage "assistant" "b" 1 1;
                  mkMessage "user" "c" 1 2; mkMessage "assistant" "d" 1 3;
                  mkMessage "user" "e" 1 4] in
  TruncateHistory history 10 2 = Done (drop 3 history).
Proof.
  intros history.
  apply (X5_TruncateHistory_keeps_window history 10 2).
  - unfold history. go_args.
  - lia.
  - repeat constructor; cbn; lia.
  - vm_compute. discriminate.
  - vm_compute. discriminate.
Defined.

(** X6.  A message appended with [AddMessageToHistory] survives the
    truncation that follows whenever it fits the budgets on its own: with
    a message limit of at least 1 and a token limit of at least its
    estimate, it is the last message of the result. *)
Theorem X6_newest_message_survives
    (now : instant) (history : list Message) (role content : string)
    (tokenLimit messageLimit : Z) :
  let history1 := AddMessageToHistory now history role content in
  goArgs history1 tokenLimit messageLimit ->
  4 * Z.of_nat (String.length content) + 3 <= MaxInt64 ->
  Forall (fun msg => 0 <= TokenCount msg) history ->
  totalTokenCount history1 <= MaxInt64 ->
  1 <= messageLimit ->
  EstimateTokens content <= tokenLimit ->
  exists r,
    TruncateHistory history1 tokenLimit messageLimit = Done r
    /\ last r = Some (mkMessage role content (EstimateTokens content) now).
Proof.
  intros history1 Hgo Hlen Hnn Hmax Hm Htok.
  set (msg := mkMessage role content (EstimateTokens content) now).
  assert (Hest : 0 <= EstimateTokens content) by (by apply EstimateTokens_nonneg).
  assert (Hnn1 : Forall (fun m => 0 <= TokenCount m) history1).
  { unfold history1, AddMessageToHistory. apply Forall_app. split; [done|].
    by repeat constructor. }
  destruct (truncate_within_budgets history1 tokenLimit messageLimit)
    as (r & Hr & _ & _ & _); [done | lia | done | done |].
  exists r. split; [exact Hr|].
  destruct (TruncateHistory_front history1 tokenLimit messageLimit r Hgo Hr) as [j Hj].
  assert (Hlast : drop (length history) history1 = [msg]).
  { unfold history1, AddMessageToHistory. by rewrite drop_app_length. }
  assert (Hlong : ~ (length r < length history1 - length history)%nat).
  { intros Hshort.
    pose proof (truncate_longest_suffix history1 r tokenLimit
                  messageLimit Hgo Hnn1 Hmax Hr (length history) Hshort) as Hbig.
    rewrite Hlast in Hbig. unfold len in Hbig. cbn in Hbig.
    specialize (Hbig ltac:(lia)). lia. }
  assert (Hlen1 : length history1 = S (length history))
    by (unfold history1, AddMessageToHistory; rewrite length_app; cbn; lia).
  rewrite Hj in Hlong |- *. rewrite length_drop in Hlong.
  assert (Hjle : (j <= length history)%nat) by lia.
  unfold history1, AddMessageToHistory. rewrite drop_app_le by done.
  by rewrite last_snoc.
Qed.

Lemma X6_newest_message_witness :
  exists r,
    TruncateHistory
      (AddMessageToHistory 9 [mkMessage "user" "a long question" 40 0] "assistant" "ok")
      10 5 = Done r
    /\ last r = Some (mkMessage "assistant" "ok" (EstimateTokens "ok") 9).
Proof.
  apply (X6_newest_message_survives 9 [mkMessage "user" "a long question" 40 0]
           "assistant" "ok" 10 5).
  - unfold AddMessageToHistory. cbn [app]. go_args.
  - vm_compute. discriminate.
  - repeat constructor; cbn; lia.
  - vm_compute. discriminate.
  - lia.
  - vm_compute. discriminate.
Defined.

(** ** The in-memory store: deletion, sharing, closing *)

Section InMemoryMore.

Import InMemory.

Lemma Delete_open ctx id w m :
  sessions w = Some m ->
  Delete ctx id w = Done (None, mkWorld (heap w) (Some (delete id m))).
Proof. intros H. unfold Delete. by rewrite H. Qed.

(** The struct behind the stored pointer can always be handed to [Update]:
    the version check compares it with itself. *)
Lemma Update_stored_pointer ctx now p w :
  lookupSession (ID (heap w p)) w = Some p ->
  exists m,
    sessions w = Some m
    /\ Update ctx now p w
       = Done (None, mkWorld (store p (stampUpdate now (heap w p)) (heap w))
                             (Some (<[ID (heap w p) := p]> m))).
Proof. intros H. by apply (Update_match ctx now p w p). Qed.

(** A caller edits the history through the stored pointer and updates
    with that pointer. *)
Lemma edit_then_Update ctx now p w id history :
  lookupSession id w = Some p ->
  ID (heap w p) = id ->
  exists w1,
    Update ctx now p
      (mkWorld (store p (setConversationHistory history (heap w p)) (heap w))
         (sessions w))
    = Done (None, w1)
    /\ lookupSession id w1 = Some p
    /\ heap w1 p = stampUpdate now (setConversationHistory history (heap w p)).
Proof.
  intros Hp Hid. set (w' := mkWorld _ (sessions w)).
  assert (Hhp : heap w' p = setConversationHistory history (heap w p))
    by apply store_same.
  assert (Hlk : lookupSession (ID (heap w' p)) w' = Some p).
  { rewrite Hhp. cbn [setConversationHistory ID]. by rewrite Hid. }
  destruct (Update_stored_pointer ctx now p w' Hlk) as (m & Hm & ->).
  eexists. split; [reflexivity|].
  rewrite Hhp. cbn [setConversationHistory ID]. rewrite Hid.
  split; [apply lookupSession_written|]. cbn [heap]. by rewrite store_same.
Qed.

End InMemoryMore.

(** X7.  [Delete] on the in-memory store never fails.  Afterwards [Get]
    for the ID finds nothing and [Update] for the ID reports
    [ErrNotFound]; the entries of the other IDs and every struct are as
    before; and deleting an ID that has no record changes nothing. *)
Theorem X7_InMemory_Delete (ctx : Context) (id : string) (w : InMemory.world) :
  exists w1,
    InMemory.Delete ctx id w = Done (None, w1)
    /\ (forall ctx1, InMemory.Get ctx1 id w1 = Done (None, None))
    /\ (forall ctx1 now data,
          ID (InMemory.heap w1 data) = id ->
          InMemory.Update ctx1 now data w1 = Done (Some ErrNotFound, w1))
    /\ (forall id', id' <> id ->
          InMemory.lookupSession id' w1 = InMemory.lookupSession id' w)
    /\ InMemory.heap w1 = InMemory.heap w
    /\ (InMemory.lookupSession id w = None -> w1 = w).
Proof.
  destruct w as [h [m|]].
  - exists (InMemory.mkWorld h (Some (delete id m))).
    split; [done|].
    assert (Hgone : InMemory.lookupSession id
                      (InMemory.mkWorld h (Some (delete id m))) = None)
      by (unfold InMemory.lookupSession; cbn; apply lookup_delete_eq).
    split; [intros; unfold InMemory.Get; by rewrite Hgone|].
    split; [intros ctx1 now data Hid; apply Update_NotFound; by rewrite Hid|].
    split; [intros id' Hne; unfold InMemory.lookupSession; cbn;
            by rewrite lookup_delete_ne|].
    split; [done|].
    unfold InMemory.lookupSession. cbn. intros Hnone. by rewrite delete_id.
  - exists (InMemory.mkWorld h None). split; [done|].
    split; [done|]. split; [intros ctx1 now data Hid; by apply Update_NotFound|].
    by repeat split.
Qed.

(** X8.  The in-memory store keeps the caller's pointer, not a copy.
    After [Create], whatever the caller writes into its struct is what the
    store holds for the ID, without any [Update]; and an [Update] with that
    pointer passes the version check whatever [Version] the caller wrote,
    persisting that [Version] plus one. *)
Theorem X8_InMemory_store_shares_callers_struct
    (ctx : Context) (now now1 : instant) (data : InMemory.loc)
    (w : InMemory.world) (m : gmap string InMemory.loc) (written : SessionData) :
  InMemory.sessions w = Some m ->
  ID written = ID (InMemory.heap w data) ->
  exists w1,
    InMemory.Create ctx now data w = Done (None, w1)
    /\ let w2 := InMemory.mkWorld (InMemory.store data written (InMemory.heap w1))
                   (InMemory.sessions w1) in
       InMemory.Get ctx (ID written) w2 = Done (Some data, None)
       /\ InMemory.storedRecord (ID written) w2 = Some written
       /\ exists w3,
            InMemory.Update ctx now1 data w2 = Done (None, w3)
            /\ InMemory.storedVersion (ID written) w3
               = Some (wrap64 (Version written + 1)).
Proof.
  intros Hm Hid. rewrite (Create_open ctx now data w m Hm).
  eexists. split; [reflexivity|]. cbn zeta. cbn [InMemory.heap InMemory.sessions].
  set (w2 := InMemory.mkWorld _ _).
  assert (Hh : InMemory.heap w2 data = written) by apply store_same.
  assert (Hlk : InMemory.lookupSession (ID written) w2 = Some data).
  { unfold InMemory.lookupSession, w2. cbn [InMemory.sessions].
    rewrite Hid. apply lookup_insert_eq. }
  split; [unfold InMemory.Get; by rewrite Hlk|].
  split; [unfold InMemory.storedRecord; by rewrite Hlk, <- Hh|].
  destruct (Update_stored_pointer ctx now1 data w2) as (m2 & Hm2 & ->);
    [by rewrite Hh|].
  eexists. split; [reflexivity|].
  rewrite Hh, storedVersion_written. done.
Qed.

Lemma X8_InMemory_sharing_witness :
  exists w1 w3,
    InMemory.Create Live 10 1%positive (InMemory.NewInMemoryStore sampleHeap)
    = Done (None, w1)
    /\ InMemory.Update Live 11 1%positive
         (InMemory.mkWorld
            (InMemory.store 1%positive (sampleSession "s1" 41) (InMemory.heap w1))
            (InMemory.sessions w1))
       = Done (None, w3)
    /\ InMemory.storedVersion "s1" w3 = Some (wrap64 (41 + 1)).
Proof.
  destruct (X8_InMemory_store_shares_callers_struct Live 10 11 1%positive
              (InMemory.NewInMemoryStore sampleHeap) ∅ (sampleSession "s1" 41)
              eq_refl eq_refl) as (w1 & Hc & _ & _ & w3 & Hu & Hv).
  exists w1, w3. split; [exact Hc|]. split; [exact Hu | exact Hv].
Defined.

(** X9.  Two callers that both fetched a session from the in-memory store
    hold the same pointer, so the store cannot tell their updates apart:
    when both update, one after the other and without fetching again,
    both succeed, neither gets [ErrVersionConflict], and the [Version]
    has moved on twice. *)
Theorem X9_InMemory_updates_through_Get_never_conflict
    (ctx : Context) (id : string) (w : InMemory.world) (p : InMemory.loc)
    (nowA nowB : instant) (historyA historyB : list Message) :
  InMemory.Get ctx id w = Done (Some p, None) ->
  ID (InMemory.heap w p) = id ->
  exists wA wB,
    InMemory.Update ctx nowA p
      (InMemory.mkWorld
         (InMemory.store p (setConversationHistory historyA (InMemory.heap w p))
            (InMemory.heap w))
         (InMemory.sessions w))
    = Done (None, wA)
    /\ InMemory.Update ctx nowB p
         (InMemory.mkWorld
            (InMemory.store p (setConversationHistory historyB (InMemory.heap wA p))
               (InMemory.heap wA))
            (InMemory.sessions wA))
       = Done (None, wB)
    /\ InMemory.storedVersion id wB
       = Some (wrap64 (Version (InMemory.heap w p) + 2))
    /\ (ConversationHistory <$> InMemory.storedRecord id wB) = Some historyB.
Proof.
  intros Hget Hid.
  assert (Hp : InMemory.lookupSession id w = Some p).
  { unfold InMemory.Get in Hget.
    destruct (InMemory.lookupSession id w); by injection Hget as ->. }
  destruct (edit_then_Update ctx nowA p w id historyA Hp Hid) as (wA & HuA & HpA & HhA).
  assert (HidA : ID (InMemory.heap wA p) = id) by (by rewrite HhA).
  destruct (edit_then_Update ctx nowB p wA id historyB HpA HidA)
    as (wB & HuB & HpB & HhB).
  exists wA, wB. split; [exact HuA|]. split; [exact HuB|].
  unfold InMemory.storedVersion, InMemory.storedRecord. rewrite HpB.
  cbn [fmap option_fmap option_map]. rewrite HhB, HhA.
  cbn [stampUpdate setUpdatedAt setVersion setConversationHistory Version
       ConversationHistory].
  split; [|done]. rewrite wrap64_add_l. do 2 f_equal. lia.
Qed.

Lemma X9_InMemory_no_conflict_witness :
  let w := InMemory.mkWorld sampleHeap (Some (<["s1" := 3%positive]> ∅)) in
  exists wA wB,
    InMemory.Update Live 11 3%positive
      (InMemory.mkWorld
         (InMemory.store 3%positive
            (setConversationHistory [mkMessage "user" "hi" 1 11] (InMemory.heap w 3%positive))
            (InMemory.heap w))
         (InMemory.sessions w))
    = Done (None, wA)
    /\ InMemory.Update Live 12 3%positive
         (InMemory.mkWorld
            (InMemory.store 3%positive
               (setConversationHistory [] (InMemory.heap wA 3%positive))
               (InMemory.heap wA))
            (InMemory.sessions wA))
       = Done (None, wB)
    /\ InMemory.storedVersion "s1" wB = Some (wrap64 (7 + 2)).
Proof.
  intros w.
  destruct (X9_InMemory_updates_through_Get_never_conflict Live "s1" w 3%positive
              11 12 [mkMessage "user" "hi" 1 11] [] eq_refl eq_refl)
    as (wA & wB & HA & HB & Hv & _).
  exists wA, wB. split; [exact HA|]. split; [exact HB | exact Hv].
Defined.

(** X10.  [Create], [Update] and [Delete] for one ID leave the map entry
    of every other ID as it was, and write to no struct but the caller's. *)
Theorem X10_InMemory_other_sessions_untouched
    (c : Caller.call) (w w1 : InMemory.world) (err : option error) (id' : string) :
  Caller.exec c w = Done (err, w1) ->
  match c with
  | Caller.CallCreate _ _ data | Caller.CallUpdate _ _ data =>
      ID (InMemory.heap w data) <> id'
  | Caller.CallDelete _ id => id <> id'
  end ->
  InMemory.lookupSession id' w1 = InMemory.lookupSession id' w
  /\ (forall q,
        match c with
        | Caller.CallCreate _ _ data | Caller.CallUpdate _ _ data => q <> data
        | Caller.CallDelete _ _ => True
        end ->
        InMemory.heap w1 q = InMemory.heap w q).
Proof.
  intros Hex Hne. destruct c as [ctx now data|ctx now data|ctx id];
    cbn [Caller.exec] in Hex.
  - unfold InMemory.Create in Hex.
    destruct (InMemory.sessions w) as [m|] eqn:Hm; [|discriminate].
    injection Hex as <- <-. split.
    + unfold InMemory.lookupSession. rewrite Hm. cbn [InMemory.sessions].
      by rewrite lookup_insert_ne.
    + intros q Hq. cbn [InMemory.heap]. by apply store_other.
  - destruct err as [e|].
    + apply Update_failure in Hex as [_ ->]. by split.
    + unfold InMemory.Update in Hex.
      destruct (InMemory.lookupSession (ID (InMemory.heap w data)) w); [|discriminate].
      destruct (negb _); [discriminate|].
      destruct (InMemory.sessions w) as [m|] eqn:Hm; [|discriminate].
      injection Hex as <-. split.
      * unfold InMemory.lookupSession. rewrite Hm. cbn [InMemory.sessions].
        by rewrite lookup_insert_ne.
      * intros q Hq. cbn [InMemory.heap]. by apply store_other.
  - unfold InMemory.Delete in Hex.
    destruct (InMemory.sessions w) as [m|] eqn:Hm.
    + injection Hex as <- <-. split; [|done].
      unfold InMemory.lookupSession. rewrite Hm. cbn [InMemory.sessions].
      by rewrite lookup_delete_ne.
    + injection Hex as <- <-. by split.
Qed.

Lemma X10_InMemory_untouched_witness :
  let w := InMemory.mkWorld sampleHeap (Some (<["s1" := 1%positive]> ∅)) in
  exists w1,
    Caller.exec (Caller.CallCreate Live 10 2%positive) w = Done (None, w1)
    /\ InMemory.lookupSession "s1" w1 = Some 1%positive.
Proof.
  intros w.
  destruct (Caller.exec (Caller.CallCreate Live 10 2%positive) w)
    as [|[err w1]] eqn:Hex; [discriminate|].
  assert (err = None) as -> by (cbn in Hex; congruence).
  exists w1. split; [reflexivity|].
  by destruct (X10_InMemory_other_sessions_untouched _ w w1 None "s1" Hex)
    as [-> _].
Defined.

(** X11.  [Close] empties the in-memory store for good: afterwards every
    [Get] finds nothing, every [Update] reports [ErrNotFound], [Delete]
    is still accepted, and [Create] panics, because it assigns into the
    nil map that [Close] left. *)
Theorem X11_InMemory_after_Close (w : InMemory.world) :
  exists w1,
    InMemory.Close w = Done (None, w1)
    /\ InMemory.heap w1 = InMemory.heap w
    /\ (forall ctx id, InMemory.Get ctx id w1 = Done (None, None))
    /\ (forall ctx now data,
          InMemory.Update ctx now data w1 = Done (Some ErrNotFound, w1))
    /\ (forall ctx id, InMemory.Delete ctx id w1 = Done (None, w1))
    /\ (forall ctx now data, InMemory.Create ctx now data w1 = Panic).
Proof. eexists. by repeat split. Qed.

(** ** The Redis-backed store: reads, expiry, deletion, keys *)

Section RedisMore.

Import Redis.

(** The time to live that a SET with a positive expiration leaves: whole
    milliseconds, the expiration rounded down but not below one. *)
Lemma setExpiry_positive t old :
  0 < t ->
  exists ms,
    setExpiry t old = Some (ms * Millisecond)
    /\ 1 <= ms
    /\ (t < Millisecond -> ms = 1)
    /\ (Millisecond <= t -> ms * Millisecond <= t < (ms + 1) * Millisecond).
Proof.
  intros Hpos. unfold setExpiry, usePrecise, formatMs, formatSec, Millisecond, Second.
  destruct (Z.ltb_spec 0 t); [|lia].
  rewrite Z.rem_mod_nonneg by lia.
  destruct (Z.ltb_spec t 1000000000) as [Hsub|Hsec]; cbn [orb].
  - destruct (Z.ltb_spec t 1000000) as [Hms|Hms]; cbn [andb].
    + exists 1. repeat split; lia.
    + exists (Z.quot t 1000000). rewrite Z.quot_div_nonneg by lia.
      pose proof (Z.div_mod t 1000000 ltac:(lia)).
      pose proof (Z.mod_pos_bound t 1000000 ltac:(lia)).
      repeat split; lia.
  - destruct (Z.ltb_spec t 1000000) as [Hms|Hms]; [lia|]. cbn [andb].
    destruct (Z.eqb_spec (t mod 1000000000) 0) as [Hwhole|Hpart]; cbn [negb].
    + exists (Z.quot t 1000000000 * 1000). rewrite Z.quot_div_nonneg by lia.
      pose proof (Z.div_mod t 1000000000 ltac:(lia)).
      split; [f_equal; lia|]. repeat split; lia.
    + exists (Z.quot t 1000000). rewrite Z.quot_div_nonneg by lia.
      pose proof (Z.div_mod t 1000000 ltac:(lia)).
      pose proof (Z.mod_pos_bound t 1000000 ltac:(lia)).
      repeat split; lia.
Qed.

(** What EXPIRE is sent for a positive time to live: whole seconds, the
    time to live rounded down but not below one. *)
Lemma formatSec_positive t :
  0 < t ->
  1 <= formatSec t
  /\ (t < Second -> formatSec t = 1)
  /\ (Second <= t -> formatSec t * Second <= t < (formatSec t + 1) * Second).
Proof.
  intros Hpos. unfold formatSec, Second.
  destruct (Z.ltb_spec 0 t); [|lia].
  destruct (Z.ltb_spec t 1000000000); cbn [andb]; [repeat split; lia|].
  rewrite Z.quot_div_nonneg by lia.
  pose proof (Z.div_mod t 1000000000 ltac:(lia)).
  pose proof (Z.mod_pos_bound t 1000000000 ltac:(lia)).
  repeat split; lia.
Qed.

(** No method writes under another session's key. *)
Lemma rUpdate_frame ctx net now s data db k :
  k <> key (ID data) ->
  (Update ctx net now s data db).1.2 !! k = db !! k.
Proof.
  intros Hk. unfold Update, cmdGet, TxPipelined.
  destruct (roundTrip ctx (watchFault net)); [done|].
  destruct (roundTrip ctx (getFault net)); [done|].
  destruct (db !! key (ID data)); [|done].
  destruct (unmarshalJSON _); [|done].
  destruct (negb _); [done|].
  destruct (marshalJSON _); [|done].
  destruct (roundTrip ctx (execFault net)); [done|].
  destruct (touched net) as [[e'|]|]; cbn.
  - by rewrite lookup_insert_ne.
  - by rewrite lookup_delete_ne.
  - by rewrite lookup_insert_ne.
Qed.

End RedisMore.

(** X12.  [Get] on the Redis-backed store tells a missing session from a
    failure: with no value under the key it returns no session and no
    error; with a value that does not decode it returns [ErrUnmarshal];
    when the read itself fails it returns that error.  In all three cases
    the cache, expiry included, is left as it was. *)
Theorem X12_Redis_Get_absent_undecodable_failed
    (ctx : Context) (net : Redis.Net) (s : Redis.RedisStore) (id : string)
    (db : gmap string Redis.entry) :
  (Redis.roundTrip ctx (Redis.getFault net) = None ->
   db !! Redis.key id = None ->
   Redis.Get ctx net s id db = (None, db, None))
  /\ (forall e text,
        Redis.roundTrip ctx (Redis.getFault net) = None ->
        db !! Redis.key id = Some e ->
        Redis.value e = Redis.Garbage text ->
        Redis.Get ctx net s id db = (None, db, Some ErrUnmarshal))
  /\ (forall err,
        Redis.roundTrip ctx (Redis.getFault net) = Some err ->
        Redis.Get ctx net s id db = (None, db, Some err)).
Proof.
  unfold Redis.Get, Redis.cmdGet. repeat apply conj.
  - intros -> ->. done.
  - intros e text -> -> ->. done.
  - intros err ->. done.
Qed.

Lemma X12_Redis_Get_witness :
  Redis.Get Live Redis.quiet (Redis.NewRedisStore 0) "s1"
    (<[Redis.key "s1" := Redis.mkEntry (Redis.Garbage "{") (Some 60)]> ∅)
  = (None, <[Redis.key "s1" := Redis.mkEntry (Redis.Garbage "{") (Some 60)]> ∅,
     Some ErrUnmarshal).
Proof.
  destruct (X12_Redis_Get_absent_undecodable_failed Live Redis.quiet
              (Redis.NewRedisStore 0) "s1"
              (<[Redis.key "s1" := Redis.mkEntry (Redis.Garbage "{") (Some 60)]> ∅))
    as (_ & Hgarbage & _).
  apply (Hgarbage (Redis.mkEntry (Redis.Garbage "{") (Some 60)) "{"); reflexivity.
Defined.

(** X13.  On a store with a positive time to live, a [Get] that returns
    a session has read it from the cache and has not changed it or any
    other key's entry.  It resets the key's time to live to the store's
    in whole seconds: rounded down, and one second when the store's is
    shorter than that.  When that refresh fails the [Get] still succeeds
    and the cache is as it was. *)
Theorem X13_Redis_Get_refreshes_expiry
    (ctx : Context) (net : Redis.Net) (s : Redis.RedisStore) (id : string)
    (db db1 : gmap string Redis.entry) (d : SessionData) (err : option error) :
  0 < Redis.ttl s ->
  Redis.Get ctx net s id db = (Some d, db1, err) ->
  err = None
  /\ Redis.storedRecord id db = Some d
  /\ Redis.storedRecord id db1 = Some d
  /\ (forall k, k <> Redis.key id -> db1 !! k = db !! k)
  /\ (Redis.expireFault net = None ->
      exists seconds,
        Redis.expiry <$> db1 !! Redis.key id = Some (Some (seconds * Redis.Second))
        /\ 1 <= seconds
        /\ (Redis.ttl s < Redis.Second -> seconds = 1)
        /\ (Redis.Second <= Redis.ttl s ->
            seconds * Redis.Second <= Redis.ttl s < (seconds + 1) * Redis.Second))
  /\ (Redis.expireFault net <> None -> db1 = db).
Proof.
  intros Hpos Hget. pose proof Hget as Hfound.
  apply rGet_found in Hfound as (-> & Hrec & Hrec1).
  split; [done|]. split; [done|]. split; [by apply Hrec1|].
  unfold Redis.Get, Redis.cmdGet, Redis.cmdExpire in Hget.
  destruct (Redis.roundTrip ctx (Redis.getFault net)) eqn:Hg; [discriminate|].
  assert (Hlive : ctx = Live) by (destruct ctx; [done | discriminate..]).
  subst ctx.
  destruct (db !! Redis.key id) as [e|] eqn:Hk; [|discriminate].
  destruct (Redis.unmarshalJSON (Redis.value e)); [|discriminate].
  rewrite roundTrip_Live in Hget.
  destruct (formatSec_positive (Redis.ttl s) Hpos) as (Hone & Hshort & Hlong).
  destruct (Redis.expireFault net) as [msg|]; cbn in Hget.
  - injection Hget as _ <-. split; [done|]. split; [done|]. done.
  - destruct (Z.leb_spec (Redis.formatSec (Redis.ttl s)) 0); [lia|].
    injection Hget as _ <-.
    split; [intros k Hne; by rewrite lookup_alter_ne|].
    split; [|done]. intros _. exists (Redis.formatSec (Redis.ttl s)).
    split; [by rewrite lookup_alter_eq, Hk|]. done.
Qed.

Lemma X13_Redis_Get_witness :
  let db : gmap string Redis.entry :=
    <[Redis.key "s1" :=
        Redis.mkEntry (Redis.Encoded (sampleSession "s1" 2)) (Some 1500000000)]> ∅ in
  exists db1,
    Redis.Get Live Redis.quiet (Redis.NewRedisStore 1500000000) "s1" db
    = (Some (sampleSession "s1" 2), db1, None)
    /\ Redis.expiry <$> db1 !! Redis.key "s1" = Some (Some 1000000000).
Proof.
  intros db.
  assert (Hget : exists db1,
             Redis.Get Live Redis.quiet (Redis.NewRedisStore 1500000000) "s1" db
             = (Some (sampleSession "s1" 2), db1, None))
    by (eexists; reflexivity).
  destruct Hget as [db1 Hget]. exists db1. split; [exact Hget|].
  assert (Hpos : 0 < Redis.ttl (Redis.NewRedisStore 1500000000)) by reflexivity.
  destruct (X13_Redis_Get_refreshes_expiry _ _ _ _ _ _ _ _ Hpos Hget)
    as (_ & _ & _ & _ & Hexp & _).
  destruct (Hexp eq_refl) as (seconds & Hexpiry & Hone & _ & Hlong).
  rewrite Hexpiry. do 2 f_equal.
  assert (Hsec : Redis.Second <= Redis.ttl (Redis.NewRedisStore 1500000000))
    by (vm_compute; discriminate).
  specialize (Hlong Hsec).
  change (Redis.ttl (Redis.NewRedisStore 1500000000)) with 1500000000 in Hlong.
  unfold Redis.Second in *. lia.
Defined.

(** X14.  A store made by [NewRedisStore] has a positive time to live: the
    one asked for when that is positive, 24 hours otherwise.  Every record
    that its [Create] or [Update] writes carries that time to live in
    whole milliseconds: rounded down, and one millisecond when it is
    shorter than that. *)
Theorem X14_Redis_writes_carry_positive_expiry
    (t : Z) (ctx : Context) (net : Redis.Net) (now : instant)
    (data data1 : SessionData) (db db1 : gmap string Redis.entry) :
  let s := Redis.NewRedisStore t in
  Redis.Create ctx net now s data db = (data1, db1, None)
  \/ Redis.Update ctx net now s data db = (data1, db1, None) ->
  0 < Redis.ttl s
  /\ Redis.ttl s = (if 0 <? t then t else 24 * 3600 * 1000000000)
  /\ exists ms,
       Redis.expiry <$> db1 !! Redis.key (ID data) = Some (Some (ms * Redis.Millisecond))
       /\ 1 <= ms
       /\ (Redis.ttl s < Redis.Millisecond -> ms = 1)
       /\ (Redis.Millisecond <= Redis.ttl s ->
           ms * Redis.Millisecond <= Redis.ttl s < (ms + 1) * Redis.Millisecond).
Proof.
  intros s Hwrite.
  assert (Httl : Redis.ttl s = (if 0 <? t then t else 24 * 3600 * 1000000000)).
  { unfold s, Redis.NewRedisStore, Redis.defaultTTL. cbn [Redis.ttl].
    destruct (Z.leb_spec t 0), (Z.ltb_spec 0 t); lia. }
  assert (Hpos : 0 < Redis.ttl s) by (rewrite Httl; destruct (Z.ltb_spec 0 t); lia).
  split; [exact Hpos|]. split; [exact Httl|].
  destruct Hwrite as [Hc|Hu].
  - apply rCreate_success in Hc as (_ & ->).
    destruct (setExpiry_positive (Redis.ttl s) (db !! Redis.key (ID data)) Hpos)
      as (ms & Hms & Hrest).
    exists ms. split; [|exact Hrest]. rewrite lookup_insert_eq.
    cbn [fmap option_fmap option_map Redis.expiry]. by rewrite Hms.
  - apply rUpdate_success in Hu as (e & _ & _ & _ & _ & _ & ->).
    destruct (setExpiry_positive (Redis.ttl s) (Some e) Hpos) as (ms & Hms & Hrest).
    exists ms. split; [|exact Hrest]. rewrite lookup_insert_eq.
    cbn [fmap option_fmap option_map Redis.expiry]. by rewrite Hms.
Qed.

Lemma X14_Redis_expiry_witness :
  exists db1,
    Redis.Create Live Redis.quiet 10 (Redis.NewRedisStore 3600) (sampleSession "s1" 0) ∅
    = (stampCreate 10 (sampleSession "s1" 0), db1, None)
    /\ Redis.expiry <$> db1 !! Redis.key "s1" = Some (Some 1000000).
Proof.
  assert (Hcreate : exists db1,
             Redis.Create Live Redis.quiet 10 (Redis.NewRedisStore 3600)
               (sampleSession "s1" 0) ∅
             = (stampCreate 10 (sampleSession "s1" 0), db1, None))
    by (eexists; reflexivity).
  destruct Hcreate as [db1 Hcreate]. exists db1. split; [exact Hcreate|].
  destruct (X14_Redis_writes_carry_positive_expiry 3600 Live Redis.quiet 10
              (sampleSession "s1" 0) (stampCreate 10 (sampleSession "s1" 0)) ∅ db1
              (or_introl Hcreate))
    as (_ & _ & ms & Hexpiry & _ & Hshort & _).
  change (ID (sampleSession "s1" 0)) with "s1" in Hexpiry.
  rewrite Hexpiry. rewrite Hshort; [done|]. vm_compute. reflexivity.
Defined.

(** X15.  After a [Delete] that got through, the session is gone from the
    Redis-backed store: [Get] returns no session and no error, [Update]
    reports [ErrNotFound], and no other key has changed.  Deleting a
    session that is not there is not an error and changes nothing; a
    [Delete] that fails changes nothing. *)
Theorem X15_Redis_Delete
    (ctx : Context) (net : Redis.Net) (s : Redis.RedisStore) (id : string)
    (db db1 : gmap string Redis.entry) (err : option error) :
  Redis.Delete ctx net s id db = (db1, err) ->
  (err = None ->
     (forall net1,
        Redis.getFault net1 = None ->
        Redis.Get Live net1 s id db1 = (None, db1, None))
     /\ (forall net1 now data,
           Redis.watchFault net1 = None -> Redis.getFault net1 = None ->
           ID data = id ->
           Redis.Update Live net1 now s data db1 = (data, db1, Some ErrNotFound))
     /\ (forall k, k <> Redis.key id -> db1 !! k = db !! k)
     /\ (db !! Redis.key id = None -> db1 = db))
  /\ (err <> None -> db1 = db).
Proof.
  unfold Redis.Delete, Redis.cmdDel. intros Hdel.
  destruct (Redis.roundTrip ctx (Redis.delFault net)) as [e|];
    injection Hdel as <- <-.
  - split; [discriminate | done].
  - split; [|done]. intros _.
    assert (Hgone : delete (Redis.key id) db !! Redis.key id = None)
      by apply lookup_delete_eq.
    repeat apply conj.
    + intros net1 Hg. unfold Redis.Get, Redis.cmdGet.
      by rewrite roundTrip_Live, Hg, Hgone.
    + intros net1 now data Hw Hg <-. apply rUpdate_NotFound; [| |done].
      * by rewrite roundTrip_Live, Hw.
      * by rewrite roundTrip_Live, Hg.
    + intros k Hk. by rewrite lookup_delete_ne.
    + intros Hnone. by apply delete_id.
Qed.

Lemma X15_Redis_Delete_witness :
  let db : gmap string Redis.entry :=
    <[Redis.key "s1" := Redis.mkEntry (Redis.Encoded (sampleSession "s1" 2)) (Some 60)]> ∅ in
  exists db1,
    Redis.Delete Live Redis.quiet (Redis.NewRedisStore 0) "s1" db = (db1, None)
    /\ Redis.Get Live Redis.quiet (Redis.NewRedisStore 0) "s1" db1 = (None, db1, None).
Proof.
  intros db. eexists. split; [reflexivity|].
  destruct (X15_Redis_Delete Live Redis.quiet (Redis.NewRedisStore 0) "s1" db _ None
              eq_refl) as [Hok _].
  destruct (Hok eq_refl) as (Hget & _).
  by apply Hget.
Defined.

(** X16.  Sessions are kept apart in the cache: different IDs have
    different keys, and no method called for one session changes what is
    stored under the key of another, whatever the network does. *)
Theorem X16_Redis_other_sessions_untouched
    (ctx : Context) (net : Redis.Net) (now : instant) (s : Redis.RedisStore)
    (data : SessionData) (id' : string) (db : gmap string Redis.entry) :
  ID data <> id' ->
  Redis.key (ID data) <> Redis.key id'
  /\ (Redis.Create ctx net now s data db).1.2 !! Redis.key id' = db !! Redis.key id'
  /\ (Redis.Update ctx net now s data db).1.2 !! Redis.key id' = db !! Redis.key id'
  /\ (Redis.Get ctx net s (ID data) db).1.2 !! Redis.key id' = db !! Redis.key id'
  /\ (Redis.Delete ctx net s (ID data) db).1 !! Redis.key id' = db !! Redis.key id'.
Proof.
  intros Hne. pose proof (key_ne _ _ Hne) as Hk.
  split; [done|]. repeat apply conj.
  - unfold Redis.Create, Redis.cmdSet.
    destruct (Redis.marshalJSON _); [|done].
    destruct (Redis.roundTrip ctx (Redis.setFault net)); [done|]. cbn.
    by rewrite lookup_insert_ne.
  - by apply rUpdate_frame.
  - unfold Redis.Get, Redis.cmdGet, Redis.cmdExpire.
    destruct (Redis.roundTrip ctx (Redis.getFault net)); [done|].
    destruct (db !! Redis.key (ID data)); [|done].
    destruct (Redis.unmarshalJSON _); [|done].
    destruct (Redis.roundTrip ctx (Redis.expireFault net)); [done|].
    destruct (Redis.formatSec (Redis.ttl s) <=? 0); cbn [fst snd].
    + by rewrite lookup_delete_ne.
    + by rewrite lookup_alter_ne.
  - unfold Redis.Delete, Redis.cmdDel.
    destruct (Redis.roundTrip ctx (Redis.delFault net)); [done|]. cbn.
    by rewrite lookup_delete_ne.
Qed.

Lemma X16_Redis_untouched_witness :
  let db : gmap string Redis.entry :=
    <[Redis.key "s2" := Redis.mkEntry (Redis.Encoded (sampleSession "s2" 2)) (Some 60)]> ∅ in
  (Redis.Create Live Redis.quiet 10 (Redis.NewRedisStore 0) (sampleSession "s1" 0) db).1.2
    !! Redis.key "s2" = db !! Redis.key "s2".
Proof.
  intros db.
  apply (X16_Redis_other_sessions_untouched Live Redis.quiet 10 (Redis.NewRedisStore 0)
           (sampleSession "s1" 0) "s2" db).
  discriminate.
Defined.

(** X17.  On the Redis-backed store the optimistic lock does its work.
    Two callers fetch a session at the same [Version] and then update one
    after the other: the first succeeds, the second gets
    [ErrVersionConflict] with the cache and its struct untouched, and
    after fetching again the second succeeds too, leaving the [Version]
    two higher and its history stored as [encoding/json] writes it.
    (Live contexts, a network without faults, a store with a positive
    time to live, an encodable session with an ID that is valid UTF-8.) *)
Theorem X17_Redis_second_writer_conflicts_then_retries
    (s : Redis.RedisStore) (id : string) (db : gmap string Redis.entry)
    (d : SessionData) (nowA nowB nowB1 : instant) (historyA historyB : list Message) :
  0 < Redis.ttl s ->
  validUTF8 id ->
  Redis.storedRecord id db = Some d ->
  ID d = id ->
  Redis.encodable d = true ->
  let dataA := setConversationHistory historyA d in
  let dataB := setConversationHistory historyB d in
  exists dbA fresh dbG dataB1 dbB,
    Redis.Update Live Redis.quiet nowA s dataA db = (stampUpdate nowA dataA, dbA, None)
    /\ Redis.Update Live Redis.quiet nowB s dataB dbA
       = (dataB, dbA, Some ErrVersionConflict)
    /\ Redis.Get Live Redis.quiet s id dbA = (Some fresh, dbG, None)
    /\ Version fresh = wrap64 (Version d + 1)
    /\ Redis.Update Live Redis.quiet nowB1 s (setConversationHistory historyB fresh) dbG
       = (dataB1, dbB, None)
    /\ Redis.storedVersion id dbB = Some (wrap64 (Version d + 2))
    /\ (ConversationHistory <$> Redis.storedRecord id dbB)
       = Some (Json.message <$> historyB).
Proof.
  intros Hpos Hvalid Hrec Hid Henc dataA dataB.
  unfold Redis.storedRecord in Hrec.
  destruct (db !! Redis.key id) as [e|] eqn:Hk; [|discriminate].
  assert (HkA : db !! Redis.key (ID dataA) = Some e) by (by cbn; rewrite Hid).
  rewrite (rUpdate_quiet nowA s dataA db e d HkA Hrec eq_refl Henc).
  set (recA := Json.session (stampUpdate nowA dataA)).
  set (entryA := Redis.mkEntry (Redis.Encoded recA) (Redis.setExpiry (Redis.ttl s) (Some e))).
  set (dbA := <[Redis.key (ID dataA) := entryA]> db).
  assert (HidA : Redis.key (ID dataA) = Redis.key id) by (by cbn; rewrite Hid).
  assert (HidrecA : ID recA = id).
  { unfold recA. rewrite session_ID. cbn. by rewrite Hid. }
  assert (HencA : Redis.encodable recA = true) by (by apply session_encodable).
  assert (HkB : dbA !! Redis.key (ID dataB) = Some entryA).
  { unfold dbA. rewrite HidA. cbn [dataB setConversationHistory ID].
    rewrite Hid. apply lookup_insert_eq. }
  assert (Hconf : Redis.Update Live Redis.quiet nowB s dataB dbA
                  = (dataB, dbA, Some ErrVersionConflict)).
  { apply (rUpdate_VersionConflict Live Redis.quiet nowB s dataB dbA _ recA
             eq_refl eq_refl HkB eq_refl).
    cbn. apply wrap64_succ_ne. }
  assert (HkG : dbA !! Redis.key id = Some entryA)
    by (unfold dbA; rewrite HidA; apply lookup_insert_eq).
  pose proof (rGet_quiet s id dbA _ recA Hpos HkG eq_refl) as Hget.
  set (dbG := alter _ (Redis.key id) dbA) in Hget.
  set (dataB1 := setConversationHistory historyB recA).
  assert (HidB1 : ID dataB1 = id) by exact HidrecA.
  assert (HkG1 : dbG !! Redis.key (ID dataB1)
                 = Some (Redis.mkEntry (Redis.Encoded recA)
                           (Some (Redis.formatSec (Redis.ttl s) * Redis.Second)))).
  { unfold dbG. rewrite HidB1, lookup_alter_eq, HkG. done. }
  pose proof (rUpdate_quiet nowB1 s dataB1 dbG _ recA HkG1 eq_refl eq_refl HencA) as HupdB.
  eexists dbA, recA, dbG, (stampUpdate nowB1 dataB1), _.
  split; [done|]. split; [exact Hconf|]. split; [exact Hget|].
  split; [done|]. split; [exact HupdB|].
  unfold Redis.storedVersion. rewrite HidB1, storedRecord_insert.
  cbn [fmap option_fmap option_map]. split; [|done].
  cbn. rewrite wrap64_add_l. do 2 f_equal. lia.
Qed.

Lemma X17_Redis_race_witness :
  let db : gmap string Redis.entry :=
    <[Redis.key "s1" := Redis.mkEntry (Redis.Encoded (sampleSession "s1" 2)) (Some 60)]> ∅ in
  exists dbA,
    Redis.Update Live Redis.quiet 11 (Redis.NewRedisStore 0)
      (setConversationHistory [mkMessage "user" "hi" 1 11] (sampleSession "s1" 2)) db
    = (stampUpdate 11
         (setConversationHistory [mkMessage "user" "hi" 1 11] (sampleSession "s1" 2)),
       dbA, None)
    /\ Redis.Update Live Redis.quiet 12 (Redis.NewRedisStore 0)
         (setConversationHistory [] (sampleSession "s1" 2)) dbA
       = (setConversationHistory [] (sampleSession "s1" 2), dbA, Some ErrVersionConflict).
Proof.
  intros db.
  destruct (X17_Redis_second_writer_conflicts_then_retries (Redis.NewRedisStore 0) "s1"
              db (sampleSession "s1" 2) 11 12 13 [mkMessage "user" "hi" 1 11] []
              eq_refl eq_refl eq_refl eq_refl eq_refl)
    as (dbA & _ & _ & _ & _ & HA & HB & _).
  exists dbA. split; [exact HA | exact HB].
Defined.

(** ** The store factory *)

Section FactoryFacts.

Import Factory.

Lemma options_snoc (opts : list StoreOption) (opt : StoreOption) (c : storeConfig) :
  foldl (fun c opt => opt c) c (opts ++ [opt])
  = opt (foldl (fun c opt => opt c) c opts).
Proof. by rewrite foldl_app. Qed.

End FactoryFacts.

(** X18.  [NewStore] returns a store exactly when it returns no error.
    The error is [ErrInvalidStoreType] exactly for a store type other
    than "memory" and "redis", and [ErrInvalidConfig] exactly for "redis"
    when the options leave the client nil.  For "memory" the options do
    not matter and the store starts empty. *)
Theorem X18_NewStore_store_or_error
    (storeType : string) (opts : list Factory.StoreOption) :
  let config := foldl (fun c opt => opt c) (Factory.mkStoreConfig None 0) opts in
  let result := Factory.NewStore storeType opts in
  (result.1 = None <-> result.2 <> None)
  /\ (result.2 = Some ErrInvalidStoreType
      <-> storeType <> "memory" /\ storeType <> "redis")
  /\ (result.2 = Some ErrInvalidConfig
      <-> storeType = "redis" /\ Factory.redisClient config = None)
  /\ (storeType = "memory" ->
      result = (Some (Factory.inMemoryStore (Some ∅)), None))
  /\ (forall e, result.2 = Some e -> e = ErrInvalidStoreType \/ e = ErrInvalidConfig).
Proof.
  intros config result. unfold result, Factory.NewStore. fold config.
  unfold Factory.StoreTypeMemory, Factory.StoreTypeRedis.
  destruct (decide (storeType = "memory")) as [->|Hm].
  - cbn. repeat split; try done; try (intros [? ?]; done); intros; naive_solver.
  - destruct (decide (storeType = "redis")) as [->|Hr].
    + destruct (Factory.redisClient config) as [cl|]; cbn.
      * repeat split; try done; try (intros [? ?]; done); intros; naive_solver.
      * repeat split; try done; try (intros [? ?]; done); intros; naive_solver.
    + cbn. repeat split; try done; try (intros [? ?]; done); intros; naive_solver.
Qed.

(** X19.  Options are applied in order, so the last one of a kind wins:
    with a client given last, [NewStore] for "redis" succeeds with that
    client, and with a nil client given last it fails with
    [ErrInvalidConfig] whatever came before.  The store it makes has a
    positive time to live: the last one configured when that is positive,
    24 hours when it is zero, negative or never set. *)
Theorem X19_NewStore_redis_options
    (opts : list Factory.StoreOption) (client : positive) (t : Z) :
  Factory.NewStore "redis" (opts ++ [Factory.WithRedisClient None])
  = (None, Some ErrInvalidConfig)
  /\ (exists s,
        Factory.NewStore "redis" (opts ++ [Factory.WithRedisClient (Some client)])
        = (Some (Factory.redisStore client s), None)
        /\ 0 < Redis.ttl s)
  /\ Factory.NewStore "redis"
       (opts ++ [Factory.WithRedisClient (Some client); Factory.WithRedisTTL t])
     = (Some (Factory.redisStore client (Redis.NewRedisStore t)), None)
  /\ Factory.NewStore "redis" [Factory.WithRedisClient (Some client)]
     = (Some (Factory.redisStore client (Redis.NewRedisStore 0)), None)
  /\ 0 < Redis.ttl (Redis.NewRedisStore t).
Proof.
  unfold Factory.NewStore, Factory.StoreTypeMemory, Factory.StoreTypeRedis.
  rewrite decide_False by done. rewrite decide_True by done.
  repeat apply conj.
  - by rewrite options_snoc.
  - rewrite options_snoc. cbn. eexists. split; [reflexivity|]. cbn.
    destruct (Z.leb_spec (Factory.redisTTL
      (foldl (fun c opt => opt c) (Factory.mkStoreConfig None 0) opts)) 0); lia.
  - replace (opts ++ [Factory.WithRedisClient (Some client); Factory.WithRedisTTL t])
      with ((opts ++ [Factory.WithRedisClient (Some client)]) ++ [Factory.WithRedisTTL t])
      by (by rewrite <- app_assoc).
    by rewrite !options_snoc.
  - done.
  - unfold Redis.NewRedisStore, Redis.defaultTTL. cbn.
    destruct (Z.leb_spec t 0); lia.
Qed.

(** ** The Supabase cache *)

Section SupabaseFacts.

Import Supabase.
Context `{Entities}.

Lemma addToCache_id_lookup now key v c now2 :
  getFromCacheByID now2 key (addToCache now "id" key v c)
  = if now2 <? now + cacheTTL c then Some v else None.
Proof.
  unfold getFromCacheByID, addToCache, fresh.
  rewrite decide_False by done. rewrite decide_True by done.
  cbn. by rewrite lookup_insert_eq.
Qed.

Lemma addToCache_id_other now key key' v c now2 :
  key <> key' ->
  getFromCacheByID now2 key' (addToCache now "id" key v c) = getFromCacheByID now2 key' c.
Proof.
  intros Hne. unfold getFromCacheByID, addToCache.
  rewrite decide_False by done. rewrite decide_True by done.
  cbn. by rewrite lookup_insert_ne.
Qed.

Lemma addToCache_ttl now keyType key v c :
  cacheTTL (addToCache now keyType key v c) = cacheTTL c.
Proof.
  unfold addToCache. repeat case_decide; [by destruct v | done | done].
Qed.

Lemma grows_refl c : grows c c.
Proof. by repeat split. Qed.

Lemma grows_trans c c1 c2 : grows c c1 -> grows c1 c2 -> grows c c2.
Proof.
  intros (Ht & Hi & Hk) (Ht1 & Hi1 & Hk1). split; [congruence|].
  split; set_solver.
Qed.

Lemma addToCache_grows now keyType key v c : grows c (addToCache now keyType key v c).
Proof.
  unfold addToCache, grows. repeat case_decide.
  - destruct v; cbn; repeat split; try done. rewrite dom_insert_L. set_solver.
  - cbn. repeat split; try done. rewrite dom_insert_L. set_solver.
  - by repeat split.
Qed.

Lemma cacheSources_grows times sources : forall i c,
  grows c (cacheSources times i sources c).
Proof.
  induction sources as [|s rest IH]; intros i c; cbn [cacheSources].
  - apply grows_refl.
  - eapply grows_trans; [apply addToCache_grows | apply IH].
Qed.

End SupabaseFacts.

(** X20.  The tenant, source and document lookups read through the cache.
    After a lookup that missed and got its answer from the database, a
    lookup of the same ID before [cacheTTL] has passed returns the cached
    entity without a query, whatever the database would answer and even
    when it is down, and leaves the cache as it is; from the expiry on,
    the database decides again. *)
Theorem X20_Supabase_lookups_read_through `{Supabase.Entities}
    (now now1 now2 now3 : instant) (id : string) (c : Supabase.Client)
    (tenant : Supabase.Tenant) (source : Supabase.Source)
    (document : Supabase.Document) :
  Supabase.getFromCacheByID now id c = None ->
  (exists c1,
      Supabase.GetTenant now now1 (inl tenant) id c = (Some tenant, None, c1)
      /\ (forall reply, now2 < now1 + Supabase.cacheTTL c ->
            Supabase.GetTenant now2 now3 reply id c1 = (Some tenant, None, c1))
      /\ (forall cause, now1 + Supabase.cacheTTL c <= now2 ->
            Supabase.GetTenant now2 now3 (inr cause) id c1
            = (None, Some (Supabase.QueryFailed "tenant" cause), c1)))
  /\ (exists c1,
      Supabase.GetSource now now1 (inl source) id c = (Some source, None, c1)
      /\ (forall reply, now2 < now1 + Supabase.cacheTTL c ->
            Supabase.GetSource now2 now3 reply id c1 = (Some source, None, c1))
      /\ (forall cause, now1 + Supabase.cacheTTL c <= now2 ->
            Supabase.GetSource now2 now3 (inr cause) id c1
            = (None, Some (Supabase.QueryFailed "source" cause), c1)))
  /\ (exists c1,
      Supabase.GetDocument now now1 (inl document) id c = (Some document, None, c1)
      /\ (forall reply, now2 < now1 + Supabase.cacheTTL c ->
            Supabase.GetDocument now2 now3 reply id c1 = (Some document, None, c1))
      /\ (forall cause, now1 + Supabase.cacheTTL c <= now2 ->
            Supabase.GetDocument now2 now3 (inr cause) id c1
            = (None, Some (Supabase.QueryFailed "document" cause), c1))).
Proof.
  intros Hmiss. repeat apply conj.
  - unfold Supabase.GetTenant. rewrite Hmiss. eexists. split; [reflexivity|].
    split.
    + intros reply Hlt. rewrite addToCache_id_lookup.
      by destruct (Z.ltb_spec now2 (now1 + Supabase.cacheTTL c)); [|lia].
    + intros cause Hge. rewrite addToCache_id_lookup.
      by destruct (Z.ltb_spec now2 (now1 + Supabase.cacheTTL c)); [lia|].
  - unfold Supabase.GetSource. rewrite Hmiss. eexists. split; [reflexivity|].
    split.
    + intros reply Hlt. rewrite addToCache_id_lookup.
      by destruct (Z.ltb_spec now2 (now1 + Supabase.cacheTTL c)); [|lia].
    + intros cause Hge. rewrite addToCache_id_lookup.
      by destruct (Z.ltb_spec now2 (now1 + Supabase.cacheTTL c)); [lia|].
  - unfold Supabase.GetDocument. rewrite Hmiss. eexists. split; [reflexivity|].
    split.
    + intros reply Hlt. rewrite addToCache_id_lookup.
      by destruct (Z.ltb_spec now2 (now1 + Supabase.cacheTTL c)); [|lia].
    + intros cause Hge. rewrite addToCache_id_lookup.
      by destruct (Z.ltb_spec now2 (now1 + Supabase.cacheTTL c)); [lia|].
Qed.

Lemma X20_Supabase_read_through_witness :
  let c := Supabase.mkClient (H := sampleEntities) (Supabase.mkCache ∅ ∅) 1000 in
  exists c1,
    Supabase.GetTenant (H := sampleEntities) 100 101 (inl "tenant-1") "tenant-1" c
    = (Some "tenant-1", None, c1)
    /\ Supabase.GetTenant (H := sampleEntities) 200 201 (inr "connection refused")
         "tenant-1" c1
       = (Some "tenant-1", None, c1).
Proof.
  intros c.
  destruct (X20_Supabase_lookups_read_through (H := sampleEntities) 100 101 200 201
              "tenant-1" c "tenant-1" "source-1" "document-1" eq_refl)
    as ((c1 & Hfirst & Hhit & _) & _).
  exists c1. split; [exact Hfirst|]. apply Hhit. cbn. lia.
Defined.

(** X21.  A client made by [New] starts with an empty cache and a time to
    live that is five minutes when the configuration says 0 and the
    configured value otherwise, a negative one included.  What is stored
    under an ID at one time is found at another exactly when less than the
    time to live has passed; so with a negative time to live configured
    nothing stored is ever found again. *)
Theorem X21_Supabase_cache_expiry `{Supabase.Entities}
    (cfg : Supabase.Config) (connect : option string) (c : Supabase.Client) :
  Supabase.New cfg connect = (Some c, None) ->
  Supabase.cacheTTL c
  = (if Supabase.CacheTTL cfg =? 0 then 5 * 60 * 1000000000 else Supabase.CacheTTL cfg)
  /\ (forall now key,
        Supabase.getFromCacheByID now key c = None
        /\ Supabase.getFromCacheByToken now key c = None)
  /\ (forall now key v now2,
        Supabase.getFromCacheByID now2 key (Supabase.addToCache now "id" key v c)
        = if now2 <? now + Supabase.cacheTTL c then Some v else None)
  /\ (Supabase.CacheTTL cfg < 0 ->
      forall now key v now2, now <= now2 ->
        Supabase.getFromCacheByID now2 key (Supabase.addToCache now "id" key v c) = None).
Proof.
  unfold Supabase.New. intros Hnew.
  destruct (decide (Supabase.URL cfg = "")); [discriminate|].
  destruct (decide (Supabase.APIKey cfg = "")); [discriminate|].
  destruct connect; [discriminate|]. injection Hnew as <-.
  cbn [Supabase.cacheTTL]. split; [done|]. split; [done|].
  split; [intros; apply addToCache_id_lookup|].
  intros Hneg now key v now2 Hle. rewrite addToCache_id_lookup. cbn [Supabase.cacheTTL].
  destruct (Z.eqb_spec (Supabase.CacheTTL cfg) 0); [lia|].
  by destruct (Z.ltb_spec now2 (now + Supabase.CacheTTL cfg)); [lia|].
Qed.

Lemma X21_Supabase_expiry_witness :
  let c := Supabase.mkClient (H := sampleEntities) (Supabase.mkCache ∅ ∅) (-1) in
  Supabase.getFromCacheByID (H := sampleEntities) 100 "t1"
    (Supabase.addToCache (H := sampleEntities) 100 "id" "t1"
       (Supabase.ATenant (H := sampleEntities) "t1") c)
  = None.
Proof.
  intros c.
  destruct (X21_Supabase_cache_expiry (H := sampleEntities)
              (Supabase.mkConfig "https://db.example" "key" (-1)) None c eq_refl)
    as (_ & _ & _ & Hneg).
  apply Hneg; cbn; lia.
Defined.

(** X22.  The cache has a single map by ID for all kinds of entity.  A
    lookup of one kind does not accept an entry of another kind under the
    same ID: it queries the database and then overwrites that entry, so
    the other kind's next lookup misses as well. *)
Theorem X22_Supabase_kinds_share_the_ID_map `{Supabase.Entities}
    (now now1 now2 now3 : instant) (id : string) (c : Supabase.Client)
    (source : Supabase.Source) (tenant : Supabase.Tenant) :
  Supabase.getFromCacheByID now id c = Some (Supabase.ASource source) ->
  (forall reply, Supabase.GetSource now now1 reply id c = (Some source, None, c))
  /\ exists c1,
       Supabase.GetTenant now now1 (inl tenant) id c = (Some tenant, None, c1)
       /\ (forall s, Supabase.getFromCacheByID now2 id c1 <> Some (Supabase.ASource s))
       /\ (forall cause,
             Supabase.GetSource now2 now3 (inr cause) id c1
             = (None, Some (Supabase.QueryFailed "source" cause), c1)).
Proof.
  intros Hcached. split.
  - intros reply. unfold Supabase.GetSource. by rewrite Hcached.
  - unfold Supabase.GetTenant. rewrite Hcached. eexists. split; [reflexivity|].
    split.
    + intros s. rewrite addToCache_id_lookup. by destruct (_ <? _).
    + intros cause. unfold Supabase.GetSource. rewrite addToCache_id_lookup.
      by destruct (_ <? _).
Qed.

Lemma X22_Supabase_shared_map_witness :
  let c := Supabase.addToCache (H := sampleEntities) 50 "id" "x1"
             (Supabase.ASource (H := sampleEntities) "x1")
             (Supabase.mkClient (Supabase.mkCache ∅ ∅) 1000) in
  exists c1,
    Supabase.GetTenant (H := sampleEntities) 100 101 (inl "x1") "x1" c
    = (Some "x1", None, c1)
    /\ Supabase.GetSource (H := sampleEntities) 102 103 (inr "timeout") "x1" c1
       = (None, Some (Supabase.QueryFailed "source" "timeout"), c1).
Proof.
  intros c.
  destruct (X22_Supabase_kinds_share_the_ID_map (H := sampleEntities) 100 101 102 103
              "x1" c "x1" "x1" eq_refl) as (_ & c1 & Hget & _ & Hmiss).
  exists c1. split; [exact Hget | apply Hmiss].
Defined.

(** X23.  No method of the client ever removes a cache entry or changes
    the time to live: after any of the six lookups the cache has every key
    it had before, expired ones included.  A lookup that returns an error
    leaves the cache exactly as it was, and so does
    [GetDocumentsByIDs], which with no IDs answers with no documents
    without asking the database. *)
Theorem X23_Supabase_cache_only_grows `{Supabase.Entities}
    (now now1 now2 : instant) (times : nat -> instant) (key : string)
    (c : Supabase.Client) :
  (forall reply r err c1,
      Supabase.GetAssistantByToken now now1 now2 reply key c = (r, err, c1) ->
      Supabase.grows c c1 /\ (err <> None -> c1 = c /\ r = None))
  /\ (forall reply r err c1,
      Supabase.GetTenant now now1 reply key c = (r, err, c1) ->
      Supabase.grows c c1 /\ (err <> None -> c1 = c /\ r = None))
  /\ (forall reply r err c1,
      Supabase.GetSource now now1 reply key c = (r, err, c1) ->
      Supabase.grows c c1 /\ (err <> None -> c1 = c /\ r = None))
  /\ (forall reply r err c1,
      Supabase.GetDocument now now1 reply key c = (r, err, c1) ->
      Supabase.grows c c1 /\ (err <> None -> c1 = c /\ r = None))
  /\ (forall reply r err c1,
      Supabase.GetSourcesByAssistantID times reply key c = (r, err, c1) ->
      Supabase.grows c c1 /\ (err <> None -> c1 = c /\ r = None))
  /\ (forall reply ids r err c1,
      Supabase.GetDocumentsByIDs reply ids c = (r, err, c1) ->
      c1 = c /\ (ids = [] -> r = Some [] /\ err = None)).
Proof.
  repeat apply conj.
  - intros reply r err c1. unfold Supabase.GetAssistantByToken.
    destruct (Supabase.getFromCacheByToken now key c).
    { intros [= <- <- <-]. split; [apply grows_refl | done]. }
    destruct reply as [[|a rest]|cause]; intros [= <- <- <-].
    + split; [apply grows_refl | done].
    + split; [|done].
      eapply grows_trans; apply addToCache_grows.
    + split; [apply grows_refl | done].
  - intros reply r err c1. unfold Supabase.GetTenant.
    destruct (Supabase.getFromCacheByID now key c) as [[]|];
      try destruct reply; intros [= <- <- <-];
      (split; [first [apply grows_refl | apply addToCache_grows] | done]).
  - intros reply r err c1. unfold Supabase.GetSource.
    destruct (Supabase.getFromCacheByID now key c) as [[]|];
      try destruct reply; intros [= <- <- <-];
      (split; [first [apply grows_refl | apply addToCache_grows] | done]).
  - intros reply r err c1. unfold Supabase.GetDocument.
    destruct (Supabase.getFromCacheByID now key c) as [[]|];
      try destruct reply; intros [= <- <- <-];
      (split; [first [apply grows_refl | apply addToCache_grows] | done]).
  - intros reply r err c1. unfold Supabase.GetSourcesByAssistantID.
    destruct reply; intros [= <- <- <-].
    + split; [apply cacheSources_grows | done].
    + split; [apply grows_refl | done].
  - intros reply ids r err c1. unfold Supabase.GetDocumentsByIDs.
    destruct ids as [|i rest].
    + intros [= <- <- <-]. done.
    + unfold len. cbn [length].
      destruct (Z.eqb_spec (Z.of_nat (S (length rest))) 0); [lia|].
      destruct reply; intros [= <- <- <-]; done.
Qed.

(** X24.  [GetAssistantByToken] answers from the first row of the query
    and stores it twice, under the token and under the assistant's ID:
    until the time to live has passed the token lookup is answered from
    the cache without a query, and the assistant is in the map by ID too.
    A query that returns no row is the error "assistant not found" and
    stores nothing. *)
Theorem X24_Supabase_assistant_by_token `{Supabase.Entities}
    (now now1 now2 now3 now4 now5 : instant) (token : string) (c : Supabase.Client)
    (assistant : Supabase.Assistant) (others : list Supabase.Assistant) :
  Supabase.getFromCacheByToken now token c = None ->
  Supabase.GetAssistantByToken now now1 now2 (inl []) token c
  = (None, Some Supabase.AssistantNotFound, c)
  /\ exists c1,
       Supabase.GetAssistantByToken now now1 now2 (inl (assistant :: others)) token c
       = (Some assistant, None, c1)
       /\ (now3 < now1 + Supabase.cacheTTL c ->
           forall reply,
             Supabase.GetAssistantByToken now3 now4 now5 reply token c1
             = (Some assistant, None, c1))
       /\ (now3 < now2 + Supabase.cacheTTL c ->
           Supabase.getFromCacheByID now3 (Supabase.assistantID assistant) c1
           = Some (Supabase.AnAssistant assistant)).
Proof.
  intros Hmiss. unfold Supabase.GetAssistantByToken at 1 2. rewrite Hmiss.
  split; [done|]. eexists. split; [reflexivity|].
  split.
  - intros Hlt reply. unfold Supabase.GetAssistantByToken.
    assert (Hhit : Supabase.getFromCacheByToken now3 token
                     (Supabase.addToCache now2 "id" (Supabase.assistantID assistant)
                        (Supabase.AnAssistant assistant)
                        (Supabase.addToCache now1 "token" token
                           (Supabase.AnAssistant assistant) c))
                   = Some assistant).
    { unfold Supabase.getFromCacheByToken, Supabase.addToCache, Supabase.fresh.
      rewrite (decide_False (P := "id" = "token")) by done.
      rewrite (decide_True (P := "id" = "id")) by done.
      rewrite (decide_True (P := "token" = "token")) by done.
      cbn. rewrite lookup_insert_eq. cbn.
      by destruct (Z.ltb_spec now3 (now1 + Supabase.cacheTTL c)); [|lia]. }
    by rewrite Hhit.
  - intros Hlt. rewrite addToCache_id_lookup, addToCache_ttl.
    by destruct (Z.ltb_spec now3 (now2 + Supabase.cacheTTL c)); [|lia].
Qed.

Lemma X24_Supabase_assistant_witness :
  let c := Supabase.mkClient (H := sampleEntities) (Supabase.mkCache ∅ ∅) 1000 in
  exists c1,
    Supabase.GetAssistantByToken (H := sampleEntities) 100 101 102
      (inl ["assistant-1"; "assistant-2"]) "tok" c
    = (Some "assistant-1", None, c1)
    /\ Supabase.GetAssistantByToken (H := sampleEntities) 500 501 502
         (inr "connection refused") "tok" c1
       = (Some "assistant-1", None, c1).
Proof.
  intros c.
  destruct (X24_Supabase_assistant_by_token (H := sampleEntities) 100 101 102 500 501 502
              "tok" c "assistant-1" ["assistant-2"] eq_refl)
    as (_ & c1 & Hfirst & Hhit & _).
  exists c1. split; [exact Hfirst|]. apply Hhit. cbn. lia.
Defined.

Section QdrantFacts.

Context {float32 : Type}.

Lemma rangeMetadata_app (visited : list (string * Qdrant.metaValue))
    (conditions : list Qdrant.Condition) :
  Qdrant.rangeMetadata visited conditions
  = conditions ++ ((fun kv => Qdrant.buildMatchCondition kv.1 kv.2) <$> visited).
Proof.
  unfold Qdrant.rangeMetadata. revert conditions.
  induction visited as [|kv visited IH]; intros conditions; cbn.
  - by rewrite app_nil_r.
  - rewrite IH. by rewrite <- app_assoc.
Qed.

Lemma ranges_empty (m : gmap string Qdrant.metaValue)
    (visited : list (string * Qdrant.metaValue)) :
  Qdrant.ranges m visited -> (visited = [] <-> m = ∅).
Proof.
  unfold Qdrant.ranges. intros Hperm. split.
  - intros ->. apply map_to_list_empty_iff. by apply Permutation_nil.
  - intros ->. rewrite map_to_list_empty in Hperm. by apply Permutation_nil_r.
Qed.

Lemma filter_of_conditions (conditions : list Qdrant.Condition) :
  (if len conditions =? 0 then None else Some (Qdrant.mkFilter conditions))
  = match conditions with [] => None | _ => Some (Qdrant.mkFilter conditions) end.
Proof.
  destruct conditions; [done|].
  unfold len. cbn [length].
  by destruct (Z.eqb_spec (Z.of_nat (S (length conditions))) 0); [lia|].
Qed.

(** The condition on the source that heads the filter, if there is one. *)
Lemma buildQdrantFilter_parts (visited : list (string * Qdrant.metaValue))
    (filter : Qdrant.SearchFilter float32) :
  exists source,
    Qdrant.buildQdrantFilter visited filter
    = match source ++ ((fun kv => Qdrant.buildMatchCondition kv.1 kv.2) <$> visited) with
      | [] => None
      | conditions => Some (Qdrant.mkFilter conditions)
      end
    /\ source
       = match Qdrant.SourceIDs filter with
         | [] =>
             if decide (Qdrant.SourceID filter = "") then []
             else [Qdrant.Condition_Field
                     (Qdrant.mkFieldCondition "source_id"
                        (Qdrant.Match_Keyword (Qdrant.SourceID filter)))]
         | [id0] =>
             [Qdrant.Condition_Field
                (Qdrant.mkFieldCondition "source_id" (Qdrant.Match_Keyword id0))]
         | ids =>
             [Qdrant.Condition_Field
                (Qdrant.mkFieldCondition "source_id" (Qdrant.Match_Keywords ids))]
         end.
Proof.
  eexists. split; [|reflexivity].
  unfold Qdrant.buildQdrantFilter. cbn zeta.
  rewrite filter_of_conditions, rangeMetadata_app.
  destruct (Qdrant.SourceIDs filter) as [|id0 [|id1 ids]]; [|done..].
  repeat case_decide; try congruence; cbn; [done|].
  by destruct (_ <$> visited).
Qed.

End QdrantFacts.

(** X25.  [buildQdrantFilter] returns no filter exactly when the search
    filter names no source, neither in [SourceIDs] nor in [SourceID], and
    has no metadata.  Otherwise the filter's [Must] list is at most one
    condition on the key "source_id", present exactly when a source is
    named, followed by one condition per metadata entry in the order the
    map was visited: as many as the map has entries, and the condition of
    every entry is among them. *)
Theorem X25_buildQdrantFilter_conditions {float32 : Type}
    (visited : list (string * Qdrant.metaValue))
    (filter : Qdrant.SearchFilter float32) :
  Qdrant.ranges (Qdrant.Metadata filter) visited ->
  (Qdrant.buildQdrantFilter visited filter = None
   <-> Qdrant.SourceIDs filter = [] /\ Qdrant.SourceID filter = ""
       /\ Qdrant.Metadata filter = ∅)
  /\ forall f, Qdrant.buildQdrantFilter visited filter = Some f ->
       exists source,
         Qdrant.Must f
         = source ++ ((fun kv => Qdrant.buildMatchCondition kv.1 kv.2) <$> visited)
         /\ (length source <= 1)%nat
         /\ (source = [] <-> Qdrant.SourceIDs filter = [] /\ Qdrant.SourceID filter = "")
         /\ (forall c, c ∈ source ->
               exists m, c = Qdrant.Condition_Field (Qdrant.mkFieldCondition "source_id" m))
         /\ length (Qdrant.Must f)
            = (length source + size (Qdrant.Metadata filter))%nat
         /\ (forall key value, Qdrant.Metadata filter !! key = Some value ->
               Qdrant.buildMatchCondition key value ∈ Qdrant.Must f).
Proof.
  intros Hranges.
  destruct (buildQdrantFilter_parts visited filter) as (source & Hbuild & Hsource).
  pose proof (ranges_empty _ _ Hranges) as Hempty.
  assert (Hnil : source = [] <-> Qdrant.SourceIDs filter = [] /\ Qdrant.SourceID filter = "").
  { rewrite Hsource.
    destruct (Qdrant.SourceIDs filter) as [|id0 [|id1 ids]];
      [destruct (decide (Qdrant.SourceID filter = ""))|..]; intuition congruence. }
  assert (Hlen : (length source <= 1)%nat).
  { rewrite Hsource.
    destruct (Qdrant.SourceIDs filter) as [|id0 [|id1 ids]];
      [destruct (decide (Qdrant.SourceID filter = ""))|..]; cbn; lia. }
  assert (Hkey : forall c, c ∈ source ->
            exists m, c = Qdrant.Condition_Field (Qdrant.mkFieldCondition "source_id" m)).
  { intros c. rewrite Hsource.
    destruct (Qdrant.SourceIDs filter) as [|id0 [|id1 ids]];
      [destruct (decide (Qdrant.SourceID filter = ""))|..];
      intros Hin; [by apply elem_of_nil in Hin|..];
      apply list_elem_of_singleton in Hin as ->; by eexists. }
  split.
  - rewrite Hbuild. split.
    + destruct source as [|c source]; [|done].
      destruct visited as [|kv visited]; [|done].
      intros _. split; [by apply Hnil|]. split; [by apply Hnil|]. by apply Hempty.
    + intros (Hids & Hid & Hmeta).
      assert (source = []) as -> by by apply Hnil.
      assert (visited = []) as -> by by apply Hempty.
      done.
  - intros f Hf. rewrite Hbuild in Hf. exists source.
    assert (Hmust : Qdrant.Must f
                    = source ++ ((fun kv => Qdrant.buildMatchCondition kv.1 kv.2) <$> visited)).
    { destruct (source ++ _); [done|]. by injection Hf as <-. }
    split; [exact Hmust|]. split; [exact Hlen|]. split; [exact Hnil|].
    split; [exact Hkey|]. split.
    + rewrite Hmust, length_app, length_fmap. f_equal.
      unfold Qdrant.ranges in Hranges. rewrite Hranges. apply length_map_to_list.
    + intros key value Hlookup. rewrite Hmust. apply elem_of_app. right.
      apply (list_elem_of_fmap_2 (fun kv => Qdrant.buildMatchCondition kv.1 kv.2)
               visited (key, value)).
      unfold Qdrant.ranges in Hranges. rewrite Hranges.
      by apply elem_of_map_to_list.
Qed.

Lemma X25_buildQdrantFilter_witness :
  let filter := Qdrant.mkSearchFilter "src-1" [] {["lang" := Qdrant.VString "en"]} tt in
  exists f source,
    Qdrant.buildQdrantFilter [("lang", Qdrant.VString "en")] filter = Some f
    /\ Qdrant.Must f
       = source ++ [Qdrant.buildMatchCondition "lang" (Qdrant.VString "en")]
    /\ length (Qdrant.Must f) = (length source + 1)%nat.
Proof.
  intros filter.
  assert (Hranges : Qdrant.ranges (Qdrant.Metadata filter) [("lang", Qdrant.VString "en")]).
  { unfold Qdrant.ranges, filter. cbn [Qdrant.Metadata]. by rewrite map_to_list_singleton. }
  destruct (X25_buildQdrantFilter_conditions [("lang", Qdrant.VString "en")] filter Hranges)
    as [_ Hsome].
  destruct (Hsome _ eq_refl) as (source & Hmust & _ & _ & _ & Hlen & _).
  eexists _, source. split; [reflexivity|]. split; [exact Hmust|].
  rewrite Hlen. unfold filter. cbn [Qdrant.Metadata]. by rewrite map_size_singleton.
Defined.

(** X26.  A non-empty [SourceIDs] takes precedence: the filter built does
    not depend on [SourceID].  A single ID in [SourceIDs] gives the filter
    that the same ID in [SourceID] gives, unless the ID is the empty
    string: [SourceIDs] with the one element "" still gives a condition
    on "source_id", the empty [SourceID] gives none.  Two or more IDs
    give one condition that matches any of them, in their order. *)
Theorem X26_buildQdrantFilter_source_ids {float32 : Type}
    (visited : list (string * Qdrant.metaValue))
    (ids : list string) (meta : gmap string Qdrant.metaValue) (score : float32) :
  ids <> [] ->
  (forall id1 id2,
      Qdrant.buildQdrantFilter visited (Qdrant.mkSearchFilter id1 ids meta score)
      = Qdrant.buildQdrantFilter visited (Qdrant.mkSearchFilter id2 ids meta score))
  /\ (forall id0 other, ids = [id0] -> id0 <> "" ->
      Qdrant.buildQdrantFilter visited (Qdrant.mkSearchFilter other ids meta score)
      = Qdrant.buildQdrantFilter visited (Qdrant.mkSearchFilter id0 [] meta score))
  /\ (forall other, ids = [""] ->
      Qdrant.buildQdrantFilter visited (Qdrant.mkSearchFilter other ids meta score)
      = Some (Qdrant.mkFilter
                (Qdrant.Condition_Field
                   (Qdrant.mkFieldCondition "source_id" (Qdrant.Match_Keyword ""))
                 :: ((fun kv => Qdrant.buildMatchCondition kv.1 kv.2) <$> visited)))
      /\ Qdrant.buildQdrantFilter visited (Qdrant.mkSearchFilter "" [] meta score)
         = match visited with
           | [] => None
           | _ => Some (Qdrant.mkFilter
                          ((fun kv => Qdrant.buildMatchCondition kv.1 kv.2) <$> visited))
           end)
  /\ (forall other, (2 <= length ids)%nat ->
      Qdrant.buildQdrantFilter visited (Qdrant.mkSearchFilter other ids meta score)
      = Some (Qdrant.mkFilter
                (Qdrant.Condition_Field
                   (Qdrant.mkFieldCondition "source_id" (Qdrant.Match_Keywords ids))
                 :: ((fun kv => Qdrant.buildMatchCondition kv.1 kv.2) <$> visited)))).
Proof.
  intros Hids.
  assert (Hbuild : forall id l,
            Qdrant.buildQdrantFilter visited (Qdrant.mkSearchFilter id l meta score)
            = match
                match l with
                | [] =>
                    if decide (id = "") then []
                    else [Qdrant.Condition_Field
                            (Qdrant.mkFieldCondition "source_id" (Qdrant.Match_Keyword id))]
                | [id0] =>
                    [Qdrant.Condition_Field
                       (Qdrant.mkFieldCondition "source_id" (Qdrant.Match_Keyword id0))]
                | _ =>
                    [Qdrant.Condition_Field
                       (Qdrant.mkFieldCondition "source_id" (Qdrant.Match_Keywords l))]
                end ++ ((fun kv => Qdrant.buildMatchCondition kv.1 kv.2) <$> visited)
              with
              | [] => None
              | conditions => Some (Qdrant.mkFilter conditions)
              end).
  { intros id l.
    destruct (buildQdrantFilter_parts visited (Qdrant.mkSearchFilter id l meta score))
      as (source & -> & ->). cbn [Qdrant.SourceIDs Qdrant.SourceID].
    by destruct l as [|? [|]]. }
  split; [|split; [|split]].
  - intros id1 id2. rewrite !Hbuild. by destruct ids as [|id0 [|]].
  - intros id0 other -> Hne. rewrite !Hbuild. by rewrite decide_False.
  - intros other ->. rewrite !Hbuild. split; [done|].
    rewrite decide_True by done. by destruct visited.
  - intros other Hlen. rewrite Hbuild.
    destruct ids as [|id0 [|id1 ids]]; cbn in Hlen; [lia..|done].
Qed.

Lemma X26_buildQdrantFilter_source_ids_witness :
  Qdrant.buildQdrantFilter [] (Qdrant.mkSearchFilter "ignored" ["a"; "b"] ∅ tt)
  = Some (Qdrant.mkFilter
            [Qdrant.Condition_Field
               (Qdrant.mkFieldCondition "source_id" (Qdrant.Match_Keywords ["a"; "b"]))]).
Proof.
  assert (Hids : ["a"; "b"] <> @nil string) by discriminate.
  destruct (X26_buildQdrantFilter_source_ids [] ["a"; "b"] ∅ tt Hids)
    as (_ & _ & _ & Hmany).
  apply Hmany. cbn. lia.
Defined.

(** X27.  With an empty [SourceIDs], [buildQdrantFilter] builds what
    [buildFilter] of the earlier revision builds from the same source ID
    and the same metadata visited in the same order; and a search filter
    that both accept builds a filter with the same conditions up to their
    order whatever the orders in which the two visit the metadata. *)
Theorem X27_buildQdrantFilter_extends_buildFilter {float32 : Type}
    (visited visited0 : list (string * Qdrant.metaValue))
    (id : string) (meta : gmap string Qdrant.metaValue) (score : float32) :
  Qdrant.ranges meta visited -> Qdrant.ranges meta visited0 ->
  Qdrant.buildQdrantFilter visited (Qdrant.mkSearchFilter id [] meta score)
  = Qdrant.buildFilter visited (Qdrant.mkSearchFilterV0 id meta score)
  /\ match Qdrant.buildQdrantFilter visited (Qdrant.mkSearchFilter id [] meta score),
           Qdrant.buildFilter visited0 (Qdrant.mkSearchFilterV0 id meta score) with
     | None, None => True
     | Some f, Some f0 => Qdrant.Must f ≡ₚ Qdrant.Must f0
     | _, _ => False
     end.
Proof.
  intros Hranges Hranges0.
  assert (Hperm : visited ≡ₚ visited0).
  { unfold Qdrant.ranges in *. by rewrite Hranges, Hranges0. }
  split; [reflexivity|].
  unfold Qdrant.buildQdrantFilter, Qdrant.buildFilter.
  cbn [Qdrant.SourceIDs Qdrant.SourceID Qdrant.SourceIDV0]. cbn zeta.
  rewrite !filter_of_conditions, !rangeMetadata_app.
  destruct (decide (id <> "")).
  - cbn. constructor. by apply fmap_Permutation.
  - cbn. destruct visited as [|kv visited].
    + apply Permutation_nil in Hperm as ->. done.
    + destruct visited0 as [|kv0 visited0].
      * symmetry in Hperm. by apply Permutation_nil in Hperm.
      * cbn. by apply (fmap_Permutation
                         (fun kv => Qdrant.buildMatchCondition kv.1 kv.2)
                         (kv :: visited) (kv0 :: visited0)).
Qed.

Lemma X27_buildQdrantFilter_extends_witness :
  Qdrant.buildQdrantFilter [("lang", Qdrant.VString "en")]
    (Qdrant.mkSearchFilter "src-1" [] {["lang" := Qdrant.VString "en"]} tt)
  = Qdrant.buildFilter [("lang", Qdrant.VString "en")]
      (Qdrant.mkSearchFilterV0 "src-1" {["lang" := Qdrant.VString "en"]} tt).
Proof.
  assert (Hranges : Qdrant.ranges {["lang" := Qdrant.VString "en"]}
                      [("lang", Qdrant.VString "en")]).
  { unfold Qdrant.ranges. by rewrite map_to_list_singleton. }
  exact (proj1 (X27_buildQdrantFilter_extends_buildFilter
                  [("lang", Qdrant.VString "en")] [("lang", Qdrant.VString "en")]
                  "src-1" {["lang" := Qdrant.VString "en"]} tt Hranges Hranges)).
Defined.
